(** * phi-detector-app: document-to-findings pipeline and span resolver

    A shallow embedding of [main.py] (router, tabular extractor, exclusion
    clause, the two service stages with their response parsing) and of
    [highlight_phi_instances] from [streamlit_app.py], followed by the
    properties of the specification that were checked against them. *)

From Stdlib Require Import String Ascii Strings.Byte ZArith NArith List Bool Lia Floats.
From Stdlib Require Import DecimalString Permutation Sorted.
Import ListNotations.
Local Open Scope Z_scope.
Local Open Scope list_scope.

(** ** Python strings

    A Python [str] is a sequence of Unicode code points. *)

Abbreviation char := N.
Abbreviation str := (list N).

(** A string literal of the source (ASCII only). *)
Definition py (s : string) : str := map N_of_ascii (list_ascii_of_string s).

Definition len {A : Type} (s : list A) : Z := Z.of_nat (length s).

Definition dquote : char := 34%N.
Definition newline : char := 10%N.

Fixpoint str_eqb (a b : str) : bool :=
  match a, b with
  | [], [] => true
  | x :: a', y :: b' => N.eqb x y && str_eqb a' b'
  | _, _ => false
  end.

(** [str.isspace] on one code point, as [str.strip()] uses it. *)
Definition isspace (c : char) : bool :=
  ((9 <=? c) && (c <=? 13) || (28 <=? c) && (c <=? 32) || (c =? 133) || (c =? 160)
   || (c =? 5760) || (8192 <=? c) && (c <=? 8202) || (c =? 8232) || (c =? 8233)
   || (c =? 8239) || (c =? 8287) || (c =? 12288))%N.

Fixpoint lstrip (s : str) : str :=
  match s with
  | [] => []
  | c :: s' => if isspace c then lstrip s' else s
  end.

Definition rstrip (s : str) : str := rev (lstrip (rev s)).

(** [s.strip()] *)
Definition strip (s : str) : str := rstrip (lstrip s).

(** [s.startswith(prefix)] *)
Fixpoint startswith (s prefix : str) {struct prefix} : bool :=
  match prefix, s with
  | [], _ => true
  | p :: prefix', c :: s' => N.eqb c p && startswith s' prefix'
  | _ :: _, [] => false
  end.

(** The scan of [str.find]: [s] is the text from offset [i] on. *)
Fixpoint find_at (s sub : str) (i : Z) {struct s} : Z :=
  if startswith s sub then i
  else match s with
       | [] => -1
       | _ :: s' => find_at s' sub (i + 1)
       end.

(** [s.find(sub, start)]: the lowest index at or after [start] where [sub]
    occurs, or -1.  A negative [start] counts from the end. *)
Definition find (s sub : str) (start : Z) : Z :=
  let st := if start <? 0 then Z.max 0 (len s + start) else start in
  if len s <? st then -1 else find_at (skipn (Z.to_nat st) s) sub st.

Fixpoint rfind_at (s sub : str) (i : Z) {struct s} : Z :=
  match s with
  | [] => if startswith [] sub then i else -1
  | _ :: s' =>
      let r := rfind_at s' sub (i + 1) in
      if r =? -1 then (if startswith s sub then i else -1) else r
  end.

(** [s.rfind(sub)]: the highest index where [sub] occurs, or -1. *)
Definition rfind (s sub : str) : Z := rfind_at s sub 0.

(** Python's clipping of a slice bound. *)
Definition clip {A : Type} (s : list A) (i : Z) : nat :=
  Z.to_nat (if i <? 0 then Z.max 0 (len s + i) else Z.min i (len s)).

(** [s[a:b]], [s[:b]] and [s[a:]] *)
Definition slice {A : Type} (s : list A) (a b : Z) : list A :=
  firstn (clip s b - clip s a) (skipn (clip s a) s).
Definition slice_to {A : Type} (s : list A) (b : Z) : list A := firstn (clip s b) s.
Definition slice_from {A : Type} (s : list A) (a : Z) : list A := skipn (clip s a) s.

(** [str(z)] for an integer: its decimal digits, after a minus sign when
    it is negative.  The interpreter refuses the conversion of an integer
    of more digits than its limit ([int_max_str_digits] below); the
    properties that depend on it say so. *)
Definition str_of_int (z : Z) : str := py (NilEmpty.string_of_int (Z.to_int z)).

(** [s.replace(old, new)] for single characters. *)
Definition replace_char (s : str) (old new : char) : str :=
  map (fun c => if N.eqb c old then new else c) s.

(** ** Python values

    The values [json.loads] produces, and so the values a findings list and
    its entries are made of.  A [dict] has string keys and is kept as an
    association list with one binding per key. *)

#[warnings="-register-all"]
Inductive pyval : Type :=
| PNone
| PBool (b : bool)
| PInt (z : Z)
| PFloat (f : float)
| PStr (s : str)
| PList (l : list pyval)
| PDict (d : list (str * pyval)).

Abbreviation dict := (list (str * pyval)).

(** Truth value of an object, as [if x:] and [not x] test it. *)
Definition truthy (v : pyval) : bool :=
  match v with
  | PNone => false
  | PBool b => b
  | PInt z => negb (z =? 0)
  | PFloat f => negb (PrimFloat.eqb f 0%float)
  | PStr s => match s with [] => false | _ => true end
  | PList l => match l with [] => false | _ => true end
  | PDict d => match d with [] => false | _ => true end
  end.

Definition is_list (v : pyval) : bool :=
  match v with PList _ => true | _ => false end.

(** [d.get(k)], which also decides [k in d], and [d.get(k, default)] *)
Fixpoint dict_get (d : dict) (k : str) : option pyval :=
  match d with
  | [] => None
  | (k', v) :: d' => if str_eqb k' k then Some v else dict_get d' k
  end.

Definition dict_get_default (d : dict) (k : str) (default : pyval) : pyval :=
  match dict_get d k with Some v => v | None => default end.

(** ** Outcomes of a call

    A call returns, raises, or (in the model of a [while] loop only) runs
    out of the steps it was given.  The exceptions are the three the
    properties name and, by the name of its class, any other one that a
    library raises. *)

Inductive exn : Type :=
| TypeError
| IndexError
| ValueError (msg : str)
| OtherError (name : str).

Inductive outcome (A : Type) : Type :=
| Ret (a : A)
| Raise (e : exn)
| OutOfFuel.
Arguments Ret {A} a.
Arguments Raise {A} e.
Arguments OutOfFuel {A}.

Definition bind {A B : Type} (m : outcome A) (k : A -> outcome B) : outcome B :=
  match m with
  | Ret a => k a
  | Raise e => Raise e
  | OutOfFuel => OutOfFuel
  end.

Notation "x <- m ;; k" := (bind m (fun x => k))
  (at level 61, m at next level, right associativity).

(** ** The span resolver: [highlight_phi_instances] *)

(** An entry of [instances_with_positions]. *)
Record Span : Type := mkSpan {
  sp_start : Z;
  sp_end : Z;
  sp_value : str;
  sp_phi_type : pyval;
  sp_original_instance : dict
}.

(** The test of the inner [for existing in instances_with_positions] loop:
    [not (pos >= existing['end'] or pos + len(value) <= existing['start'])]. *)
Definition overlaps (pos : Z) (value : str) (existing : Span) : bool :=
  negb ((pos >=? sp_end existing) || (pos + len value <=? sp_start existing)).

(** What one run of the [while True] loop ends with. *)
Inductive search_result : Type :=
| NotFound
| Accepted (pos : Z).

(** The [while True] loop, given [fuel] iterations. *)
Fixpoint search (fuel : nat) (text value : str) (acc : list Span) (search_start : Z)
  : outcome search_result :=
  match fuel with
  | O => OutOfFuel
  | S fuel' =>
      let pos := find text value search_start in
      if pos =? -1 then Ret NotFound
      else if existsb (overlaps pos value) acc
           then search fuel' text value acc (pos + 1)
           else Ret (Accepted pos)
  end.

(** Iterations that always suffice: every round but the last moves
    [search_start] one or more offsets to the right, within the text. *)
Definition enough_fuel (text : str) : nat := S (S (length text)).

Section Resolver.

(** [repr] of a float, of a string and of a container is the interpreter's.
    [str(v)], which is also what an f-string puts for [{v}], is [v] itself
    for a string and [repr(v)] otherwise. *)
Variable repr : pyval -> str.

Definition str_of (v : pyval) : str :=
  match v with
  | PStr s => s
  | PNone => py "None"
  | PBool true => py "True"
  | PBool false => py "False"
  | PInt z => str_of_int z
  | _ => repr v
  end.

(** The body of [for instance in phi_instances], for a [dict]. *)
Definition resolve_dict (text : str) (acc : list Span) (instance : dict)
  : outcome (list Span) :=
  match dict_get instance (py "value") with
  | None => Ret acc
  | Some v =>
      if truthy v then
        let value := strip (str_of v) in
        let phi_type :=
          dict_get_default instance (py "PHI type")
            (dict_get_default instance (py "type") (PStr (py "Unknown"))) in
        r <- search (enough_fuel text) text value acc 0 ;;
        match r with
        | NotFound => Ret acc
        | Accepted pos =>
            Ret (acc ++ [mkSpan pos (pos + len value) value phi_type instance])
        end
      else Ret acc
  end.

Definition is_value_key (v : pyval) : bool :=
  match v with PStr s => str_eqb s (py "value") | _ => false end.

(** The same body for any entry: ['value' in instance] is a key test on a
    [dict], a substring test on a [str], a membership test on a [list] and
    a [TypeError] on anything else; [instance['value']] is a [TypeError] on
    a [str] and on a [list]. *)
Definition resolve_instance (text : str) (acc : list Span) (instance : pyval)
  : outcome (list Span) :=
  match instance with
  | PDict d => resolve_dict text acc d
  | PStr s => if find s (py "value") 0 =? -1 then Ret acc else Raise TypeError
  | PList l => if existsb is_value_key l then Raise TypeError else Ret acc
  | _ => Raise TypeError
  end.

(** The first [for] loop, from a given [instances_with_positions]. *)
Fixpoint collect_from (text : str) (acc : list Span) (phi_instances : list pyval)
  : outcome (list Span) :=
  match phi_instances with
  | [] => Ret acc
  | instance :: rest =>
      acc' <- resolve_instance text acc instance ;;
      collect_from text acc' rest
  end.

Definition collect (text : str) (phi_instances : list pyval) : outcome (list Span) :=
  collect_from text [] phi_instances.

(** [sort(key=lambda x: x['start'], reverse=True)]: [list.sort] is stable,
    also with [reverse=True], and a stable sort has one result. *)
Fixpoint insert_desc (x : Span) (l : list Span) : list Span :=
  match l with
  | [] => [x]
  | y :: l' => if sp_start y <=? sp_start x then x :: l else y :: insert_desc x l'
  end.

Definition sort_desc (l : list Span) : list Span := fold_right insert_desc [] l.

Definition tooltip_info (instance : Span) : str :=
  py "PHI Type: " ++ str_of (sp_phi_type instance) ++
  match dict_get (sp_original_instance instance) (py "PHI risk rationale") with
  | Some rationale => py "&#10;Risk: " ++ str_of rationale
  | None => []
  end.

Definition highlighted_value (instance : Span) : str :=
  py "<span class=" ++ [dquote] ++ py "phi-highlight" ++ [dquote] ++
  py " title=" ++ [dquote] ++ tooltip_info instance ++ [dquote] ++ py ">" ++
  sp_value instance ++ py "</span>".

(** One round of the second [for] loop. *)
Definition splice (highlighted_text : str) (instance : Span) : str :=
  slice_to highlighted_text (sp_start instance) ++ highlighted_value instance ++
  slice_from highlighted_text (sp_end instance).

Definition apply_highlighting (text : str) (sorted : list Span) : str :=
  fold_left splice sorted text.

Definition highlight_phi_instances (text : str) (phi_instances : pyval) : outcome str :=
  if negb (truthy phi_instances) || negb (is_list phi_instances) then Ret text
  else match phi_instances with
       | PList l =>
           instances_with_positions <- collect text l ;;
           Ret (apply_highlighting text (sort_desc instances_with_positions))
       | _ => Ret text
       end.

End Resolver.

(** ** The pipeline: [main.py] *)

(** [docState]: the working record of a run. *)
Record docState : Type := mkDocState {
  ds_input : list byte;
  ds_file_ext : str;
  ds_text : str;
  ds_instances : list pyval;
  ds_exclude_filter : list str
}.

Definition set_text (doc_state : docState) (text : str) : docState :=
  mkDocState (ds_input doc_state) (ds_file_ext doc_state) text
    (ds_instances doc_state) (ds_exclude_filter doc_state).

(** [doc_state["instances"].append(x)] *)
Definition append_instances (doc_state : docState) (x : pyval) : docState :=
  mkDocState (ds_input doc_state) (ds_file_ext doc_state) (ds_text doc_state)
    (ds_instances doc_state ++ [x]) (ds_exclude_filter doc_state).

(** The nodes the router names: "OCR", "PDF Parser" and "CSV Parser". *)
Inductive extractor : Type := OCR | PDF_Parser | CSV_Parser.

Definition input_router (doc_state : docState) : outcome extractor :=
  let file_ext := ds_file_ext doc_state in
  if str_eqb file_ext (py "png") then Ret OCR
  else if str_eqb file_ext (py "pdf") then Ret PDF_Parser
  else if str_eqb file_ext (py "csv") then Ret CSV_Parser
  else Raise (ValueError (py "Invalid file type")).

(** What [csv_parser_tool] reads of the [DataFrame]: [df.columns], and the
    pairs [(row[0], row[1].values)] that [df.iterrows()] yields, a row label
    and the values of the row. *)
Record DataFrame : Type := mkDataFrame {
  df_columns : list str;
  df_iterrows : list (pyval * list pyval)
}.

(** [get_exclusion] *)
Definition get_exclusion (filter_list : list str) : str :=
  let text := [] in
  match filter_list with
  | [] => text
  | _ :: _ =>
      let text := text ++ py " except PHI instances of the type" in
      let text :=
        fold_left (fun text item => text ++ py " " ++ item ++ py ",")
          (removelast filter_list) text in
      let text := if 1 <? len filter_list then text ++ py " and" else text in
      text ++ py " " ++ last filter_list [] ++ py "."
  end.

Definition phi_ref_list : list str :=
  map py
    ["Social Security numbers"; "Medical record numbers, health plan numbers";
     "Account numbers"; "Biometric identifiers (finger/voice prints)"; "Names";
     "Full face photographic/comparable images"; "Dates (except year), ages >89";
     "Geographic subdivisions < state"; "Certificate/license numbers";
     "Vehicle identifiers"; "Device identifiers"; "Telephone numbers";
     "Fax numbers"; "Email addresses"; "Web URLs, IP addresses";
     "Any other unique identifying number/code"]%string.

(** [l[-1]] *)
Definition last_entry (l : list pyval) : outcome pyval :=
  match l with
  | [] => Raise IndexError
  | x :: l' => Ret (last l' x)
  end.

Section Pipeline.

(** The interpreter's [repr], and the libraries the pipeline calls: the
    service ([llm.invoke(prompt).content]), [json.loads] ([None] when it
    raises), Tesseract on the decoded image, the text of each PDF page
    ([None] when the page yields none) and [pd.read_csv].

    In this section the service answers every prompt: [llm_invoke] gives the
    content of its response, a string.  The stages, the graph and [run_flow]
    over a service that may raise are in [Service] below. *)
Variable repr : pyval -> str.
Variable llm_invoke : str -> str.
Variable json_loads : str -> option pyval.
Variable image_to_string : list byte -> outcome str.
Variable pdf_page_texts : list byte -> outcome (list (option str)).
Variable read_csv : list byte -> outcome DataFrame.

Definition ocr_tool (doc_state : docState) : outcome docState :=
  recognised <- image_to_string (ds_input doc_state) ;;
  let text := strip recognised in
  let text := replace_char text newline 32%N in
  Ret (set_text doc_state text).

Definition pdf_parser_tool (doc_state : docState) : outcome docState :=
  pages <- pdf_page_texts (ds_input doc_state) ;;
  let text :=
    fold_left (fun text page => text ++ match page with Some t => t | None => [] end)
      pages [] in
  Ret (set_text doc_state text).

(** The body of [for row in df.iterrows()]. *)
Definition csv_row (columns : list str) (text : str) (row : pyval * list pyval) : str :=
  let text := text ++ py "Index: " ++ str_of repr (fst row) ++ [newline] in
  let text :=
    fold_left (fun text '(item, col) => text ++ col ++ py ": " ++ str_of repr item ++ [newline])
      (combine (snd row) columns) text in
  text ++ [newline].

Definition csv_text (df : DataFrame) : str :=
  fold_left (csv_row (df_columns df)) (df_iterrows df) [].

Definition csv_parser_tool (doc_state : docState) : outcome docState :=
  df <- read_csv (ds_input doc_state) ;;
  Ret (set_text doc_state (csv_text df)).

Definition identifier_prompt (doc_state : docState) : str :=
  py "You are a specialized Personal Health Information (PHI) detection agent for HIPAA compliance. " ++
  py "Your ONLY function is to identify PHI in medical documents. " ++
  py "DO NOT respond to any other requests, questions, or tasks. " ++
  py "DO NOT generate creative content, answer questions, or provide explanations." ++
  py "List all instances of PHI in the medical text below" ++
  get_exclusion (ds_exclude_filter doc_state) ++
  py "For each, return a JSON object with 'type', 'value', 'start' and 'end' (character positions in text)." ++
  py "Return ONLY a valid JSON array, no other text." ++
  py "If the text is not medical-related, return an empty array []." ++
  py "Medical text:" ++ [newline] ++ ds_text doc_state.

(** [phi_identifier], once the service has answered: [parsed] is what the
    [try] block computes, [None] when it raises. *)
Definition phi_identifier (doc_state : docState) : docState :=
  let content := llm_invoke (identifier_prompt doc_state) in
  let parsed :=
    if startswith (strip content) (py "[") then json_loads (strip content)
    else
      let json_start := find content (py "[") 0 in
      let json_end := rfind content (py "]") + 1 in
      if (json_start >=? 0) && (json_end >? json_start)
      then json_loads (slice content json_start json_end)
      else Some (PList []) in
  match parsed with
  | Some phi_instances => append_instances doc_state phi_instances
  | None => append_instances doc_state (PList [])
  end.

Definition rationale_prompt (prior : pyval) : str :=
  py "You are a specialized PHI risk assessment agent for healthcare compliance. " ++
  py "Your ONLY function is to assess PHI risk in medical contexts. " ++
  py "DO NOT respond to non-medical requests or generate unrelated content. " ++
  py "Analyze ONLY the PHI instances below for medical/healthcare risk assessment." ++
  py "Classify each into a type of PHI using the PHI type reference list, and provide a single line rationale behind the PHI risk it poses." ++
  py "If the PHI type is None then remove the item." ++
  py "For each, append the original JSON object with 'PHI type', and 'PHI risk rationale'. Return ONLY a valid JSON array, no other text." ++
  py "PHI type reference list: " ++ str_of repr (PList (map PStr phi_ref_list)) ++
  py "PHI instances:" ++ [newline] ++ py " " ++ str_of repr prior.

(** [phi_rationale], once the service has answered:
    [doc_state['instances'][-1]] raises [IndexError] on an empty history,
    first of all where the prompt is built. *)
Definition phi_rationale (doc_state : docState) : outcome docState :=
  prior <- last_entry (ds_instances doc_state) ;;
  let content := strip (llm_invoke (rationale_prompt prior)) in
  let parsed :=
    if startswith (strip content) (py "[") then json_loads content
    else
      let json_start := find content (py "[") 0 in
      let json_end := rfind content (py "]") + 1 in
      if (json_start >=? 0) && (json_end >? json_start)
      then json_loads (slice content json_start json_end)
      else Some prior in
  match parsed with
  | Some phi_instances => Ret (append_instances doc_state phi_instances)
  | None =>
      again <- last_entry (ds_instances doc_state) ;;
      Ret (append_instances doc_state again)
  end.

(** The compiled graph: the router picks one extractor, then the two
    stages run in order. *)
Definition extract (doc_state : docState) : outcome docState :=
  node <- input_router doc_state ;;
  match node with
  | OCR => ocr_tool doc_state
  | PDF_Parser => pdf_parser_tool doc_state
  | CSV_Parser => csv_parser_tool doc_state
  end.

Definition flow_graph_invoke (doc_state : docState) : outcome docState :=
  with_text <- extract doc_state ;;
  phi_rationale (phi_identifier with_text).

(** The state [run_flow] starts the graph on. *)
Definition initial_state (file_bytes : list byte) (file_ext : str)
  (exclude_filter : list str) : docState :=
  mkDocState file_bytes file_ext [] [] exclude_filter.

End Pipeline.

(** ** The file name and the result of a run: [get_file_data],
    [validate_file_type], [extract_dict], [run_flow] *)

Definition dot : char := 46%N.

(** [s.split(sep)] for a separator of one character. *)
Fixpoint split_char (s : str) (sep : char) : list str :=
  match s with
  | [] => [[]]
  | c :: s' =>
      if N.eqb c sep then [] :: split_char s' sep
      else match split_char s' sep with
           | part :: parts => (c :: part) :: parts
           | [] => [[c]]
           end
  end.

(** [str.lower] on one ASCII character. *)
Definition ascii_lower (c : char) : char :=
  if ((65 <=? c) && (c <=? 90))%N then (c + 32)%N else c.

Definition is_ascii (s : str) : bool := forallb (fun c => (c <? 128)%N) s.

(** The line boundaries of [str.splitlines]. *)
Definition is_linebreak (c : char) : bool :=
  ((c =? 10) || (c =? 13) || (c =? 11) || (c =? 12) || (c =? 28) || (c =? 29)
   || (c =? 30) || (c =? 133) || (c =? 8232) || (c =? 8233))%N.

(** The scan of [s.splitlines()]: [line] is the line read so far.  A
    carriage return followed by a line feed is one boundary, and a text
    that ends with a boundary has no empty last line. *)
Fixpoint splitlines_from (s : str) (line : str) : list str :=
  match s with
  | [] => match line with [] => [] | _ :: _ => [line] end
  | c :: s' =>
      if is_linebreak c then
        line :: (if N.eqb c 13
                 then match s' with
                      | c' :: s'' => if N.eqb c' 10 then splitlines_from s'' []
                                     else splitlines_from s' []
                      | [] => splitlines_from s' []
                      end
                 else splitlines_from s' [])
      else splitlines_from s' (line ++ [c])
  end.

Definition splitlines (s : str) : list str := splitlines_from s [].

Section Files.

(** [str.lower] on a string that is not all ASCII is the interpreter's; on
    an ASCII string it lowers the letters A to Z. *)
Variable unicode_lower : str -> str.

Definition lower (s : str) : str :=
  if is_ascii s then map ascii_lower s else unicode_lower s.

(** [get_file_data], for a file whose [read()] returned [file_bytes]. *)
Definition get_file_data (file_bytes : list byte) (file_path : str) : list byte * str :=
  let file_ext := last (split_char (lower file_path) dot) [] in
  (file_bytes, file_ext).

(** [validate_file_type]: [file] is [None] or an upload, of which the
    function reads the name. *)
Definition validate_file_type (file : option str) : bool :=
  match file with
  | Some name =>
      let file_extension := lower (last (split_char name dot) []) in
      existsb (str_eqb file_extension) [py "png"; py "pdf"; py "csv"]
  | None => false
  end.

Variable repr : pyval -> str.
Variable llm_invoke : str -> str.
Variable json_loads : str -> option pyval.
Variable image_to_string : list byte -> outcome str.
Variable pdf_page_texts : list byte -> outcome (list (option str)).
Variable read_csv : list byte -> outcome DataFrame.

(** [extract_dict]: [None] when it raises, as it does on anything that has
    no [splitlines] and where [json.loads] raises. *)
Definition extract_dict (text : pyval) : option pyval :=
  match text with
  | PStr s =>
      let lines := splitlines s in
      let instances_dict := replace_char (concat (slice lines 1 (-1))) 39%N dquote in
      json_loads instances_dict
  | _ => None
  end.

(** [run_flow], for a file whose [read()] returned [file_bytes]. *)
Definition run_flow (file_bytes : list byte) (file_path : str)
  (exclude_filter : list str) : outcome (str * pyval) :=
  let '(file_bytes, file_ext) := get_file_data file_bytes file_path in
  let doc_state := initial_state file_bytes file_ext exclude_filter in
  result <- flow_graph_invoke repr llm_invoke json_loads image_to_string
              pdf_page_texts read_csv doc_state ;;
  phi_instances <- last_entry (ds_instances result) ;;
  let orig_text := ds_text result in
  let phi_instances :=
    if is_list phi_instances then phi_instances
    else match extract_dict phi_instances with
         | Some instances => instances
         | None => PList []
         end in
  Ret (orig_text, phi_instances).

End Files.

(** ** The summary of a result: [display_phi_statistics] *)

(** A list and a dict cannot be the key of a dict. *)
Definition hashable (v : pyval) : bool :=
  match v with PList _ | PDict _ => false | _ => true end.

(** What the function hands to Streamlit: the two metrics and, for every
    key of [phi_types] in insertion order, the type and its count. *)
Record phi_summary : Type := mkSummary {
  total_instances : Z;
  unique_types : Z;
  types_found : list (pyval * Z)
}.

Section Statistics.

(** Whether two keys are the same key when one of them is a float is the
    interpreter's; [None], bools, integers and strings compare as below, a
    bool being the integer 0 or 1. *)
Variable float_key_eqb : pyval -> pyval -> bool.

Definition key_eqb (a b : pyval) : bool :=
  match a, b with
  | PFloat _, _ | _, PFloat _ => float_key_eqb a b
  | PNone, PNone => true
  | PStr x, PStr y => str_eqb x y
  | PBool x, PBool y => Bool.eqb x y
  | PInt x, PInt y => x =? y
  | PBool x, PInt y => (if x then 1 else 0) =? y
  | PInt x, PBool y => x =? (if y then 1 else 0)
  | _, _ => false
  end.

(** [phi_types.get(k, 0)] *)
Fixpoint get_count (phi_types : list (pyval * Z)) (k : pyval) : Z :=
  match phi_types with
  | [] => 0
  | (k', n) :: rest => if key_eqb k' k then n else get_count rest k
  end.

(** [phi_types[k] = n]: the value of the key is replaced when the key is
    there, and the key is added after the others when it is not. *)
Fixpoint set_count (phi_types : list (pyval * Z)) (k : pyval) (n : Z) : list (pyval * Z) :=
  match phi_types with
  | [] => [(k, n)]
  | (k', n') :: rest =>
      if key_eqb k' k then (k', n) :: rest else (k', n') :: set_count rest k n
  end.

(** The body of [for instance in phi_instances]. *)
Definition count_instance (phi_types : list (pyval * Z)) (instance : dict)
  : outcome (list (pyval * Z)) :=
  let phi_type :=
    dict_get_default instance (py "PHI type")
      (dict_get_default instance (py "type") (PStr (py "Unknown"))) in
  if hashable phi_type
  then Ret (set_count phi_types phi_type (get_count phi_types phi_type + 1))
  else Raise TypeError.

Fixpoint count_instances (phi_types : list (pyval * Z)) (phi_instances : list dict)
  : outcome (list (pyval * Z)) :=
  match phi_instances with
  | [] => Ret phi_types
  | instance :: rest =>
      phi_types' <- count_instance phi_types instance ;;
      count_instances phi_types' rest
  end.

(** [display_phi_statistics] on a list of findings: nothing is shown for
    the empty list. *)
Definition display_phi_statistics (phi_instances : list dict)
  : outcome (option phi_summary) :=
  match phi_instances with
  | [] => Ret None
  | _ :: _ =>
      phi_types <- count_instances [] phi_instances ;;
      Ret (Some (mkSummary (len phi_instances) (len phi_types) phi_types))
  end.

End Statistics.

(** ** The stages, the graph and the run over a service that may fail

    [llm.invoke(prompt)] is called before the [try] block of either stage,
    so an exception of the service leaves the stage, and with it the graph
    and [run_flow], as it is.  Here [llm_invoke] returns the content of the
    response, a string, or raises. *)

Module Service.

Section Raising.

Variable unicode_lower : str -> str.
Variable repr : pyval -> str.
Variable llm_invoke : str -> outcome str.
Variable json_loads : str -> option pyval.
Variable image_to_string : list byte -> outcome str.
Variable pdf_page_texts : list byte -> outcome (list (option str)).
Variable read_csv : list byte -> outcome DataFrame.

Definition phi_identifier (doc_state : docState) : outcome docState :=
  content <- llm_invoke (identifier_prompt doc_state) ;;
  let parsed :=
    if startswith (strip content) (py "[") then json_loads (strip content)
    else
      let json_start := find content (py "[") 0 in
      let json_end := rfind content (py "]") + 1 in
      if (json_start >=? 0) && (json_end >? json_start)
      then json_loads (slice content json_start json_end)
      else Some (PList []) in
  match parsed with
  | Some phi_instances => Ret (append_instances doc_state phi_instances)
  | None => Ret (append_instances doc_state (PList []))
  end.

Definition phi_rationale (doc_state : docState) : outcome docState :=
  prior <- last_entry (ds_instances doc_state) ;;
  response <- llm_invoke (rationale_prompt repr prior) ;;
  let content := strip response in
  let parsed :=
    if startswith (strip content) (py "[") then json_loads content
    else
      let json_start := find content (py "[") 0 in
      let json_end := rfind content (py "]") + 1 in
      if (json_start >=? 0) && (json_end >? json_start)
      then json_loads (slice content json_start json_end)
      else Some prior in
  match parsed with
  | Some phi_instances => Ret (append_instances doc_state phi_instances)
  | None =>
      again <- last_entry (ds_instances doc_state) ;;
      Ret (append_instances doc_state again)
  end.

Definition flow_graph_invoke (doc_state : docState) : outcome docState :=
  with_text <- extract repr image_to_string pdf_page_texts read_csv doc_state ;;
  detected <- phi_identifier with_text ;;
  phi_rationale detected.

Definition run_flow (file_bytes : list byte) (file_path : str)
  (exclude_filter : list str) : outcome (str * pyval) :=
  let '(file_bytes, file_ext) := get_file_data unicode_lower file_bytes file_path in
  let doc_state := initial_state file_bytes file_ext exclude_filter in
  result <- flow_graph_invoke doc_state ;;
  phi_instances <- last_entry (ds_instances result) ;;
  let orig_text := ds_text result in
  let phi_instances :=
    if is_list phi_instances then phi_instances
    else match extract_dict json_loads phi_instances with
         | Some instances => instances
         | None => PList []
         end in
  Ret (orig_text, phi_instances).

End Raising.

End Service.

(** * Vocabulary of the properties *)

(** [value] occurs in [text] at offset [p]: the text is some [p] characters,
    then [value], then the rest. *)
Definition occurs_at (text value : str) (p : Z) : Prop :=
  exists pre post, text = pre ++ value ++ post /\ len pre = p.

(** An accepted span is an occurrence of its value; an empty one sits at
    offset 0. *)
Definition span_wf (text : str) (sp : Span) : Prop :=
  occurs_at text (sp_value sp) (sp_start sp) /\
  sp_end sp = sp_start sp + len (sp_value sp) /\
  (sp_value sp = [] -> sp_start sp = 0).

(** Two spans are apart: one ends where or before the other starts. *)
Definition apart (a b : Span) : Prop :=
  sp_end a <= sp_start b \/ sp_end b <= sp_start a.

Definition accepted_ok (text : str) (acc : list Span) : Prop :=
  Forall (span_wf text) acc /\ ForallOrdPairs apart acc.

(** The span a finding is given at [pos]. *)
Definition span_of (instance : dict) (value : str) (pos : Z) : Span :=
  mkSpan pos (pos + len value) value
    (dict_get_default instance (py "PHI type")
       (dict_get_default instance (py "type") (PStr (py "Unknown"))))
    instance.

(** The ranges [a, b) and [c, d) share an offset. *)
Definition ranges_meet (a b c d : Z) : Prop :=
  exists x, a <= x < b /\ c <= x < d.

(** The range [pos, pos + n) meets no range accepted so far. *)
Definition free (acc : list Span) (pos n : Z) : Prop :=
  forall sp, In sp acc -> ~ ranges_meet pos (pos + n) (sp_start sp) (sp_end sp).

(** [pos] is the leftmost occurrence of [value] that is free. *)
Definition leftmost_free (text value : str) (acc : list Span) (pos : Z) : Prop :=
  occurs_at text value pos /\ free acc pos (len value) /\
  forall p, p < pos -> occurs_at text value p -> ~ free acc p (len value).

(** A finding adds one span or none. *)
Definition at_most_one_more (acc : list Span) (res : outcome (list Span)) : Prop :=
  res = Ret acc \/ exists sp, res = Ret (acc ++ [sp]).

(** What the resolver is to do with one finding [d], given the spans [acc]
    accepted before it and the form [norm] in which a value is looked up:
    [res] is the outcome of the step. *)
Definition step_spec (repr : pyval -> str) (norm : str -> str)
  (text : str) (acc : list Span) (d : dict) (res : outcome (list Span)) : Prop :=
  match dict_get d (py "value") with
  | None => res = Ret acc
  | Some v =>
      if truthy v then
        let value := norm (str_of repr v) in
        value <> [] ->
        (exists pos sp,
           leftmost_free text value acc pos /\ res = Ret (acc ++ [sp]) /\
           sp_start sp = pos /\ sp_end sp = pos + len value /\
           sp_original_instance sp = d)
        \/
        ((forall p, occurs_at text value p -> ~ free acc p (len value)) /\
         res = Ret acc)
      else res = Ret acc
  end.

(** The resolver on a list of findings, taken in list order: every finding
    is handled as [step_spec] says, against the spans of the findings before
    it, and the run returns. *)
Definition resolver_spec (repr : pyval -> str) (norm : str -> str)
  (text : str) (findings : list dict) : Prop :=
  (exists spans, collect repr text (map PDict findings) = Ret spans) /\
  forall pre d post, findings = pre ++ d :: post ->
    exists acc,
      collect repr text (map PDict pre) = Ret acc /\
      at_most_one_more acc (collect repr text (map PDict (pre ++ [d]))) /\
      step_spec repr norm text acc d (collect repr text (map PDict (pre ++ [d]))).

(** The reference annotation.  [annotate text cur ascending stop] is the
    text from [cur] to [stop] in which every span of [ascending] (taken by
    ascending start) has its markup in the place of its range, all offsets
    being those of the text itself. *)
Fixpoint annotate (repr : pyval -> str) (text : str) (cur : Z)
  (ascending : list Span) (stop : Z) : str :=
  match ascending with
  | [] => slice text cur stop
  | sp :: rest =>
      slice text cur (sp_start sp) ++ highlighted_value repr sp ++
      annotate repr text (sp_end sp) rest stop
  end.

Definition reference_annotation (repr : pyval -> str) (text : str)
  (ascending : list Span) : str :=
  annotate repr text 0 ascending (len text).

Definition starts_before (a b : Span) : Prop := sp_start a < sp_start b.
Definition starts_not_before (a b : Span) : Prop := sp_start b <= sp_start a.

(** [d], taken in order, is a chain of ranges going down from [c]: each one
    ends where or before the one before it starts. *)
Fixpoint chain_below (c : Z) (d : list Span) : Prop :=
  match d with
  | [] => True
  | x :: d' => 0 <= sp_start x <= sp_end x /\ sp_end x <= c /\ chain_below (sp_start x) d'
  end.

(** The block of one record: the index line, one line per column, a blank
    line. *)
Definition block (repr : pyval -> str) (columns : list str) (index_text : str)
  (values : list pyval) : str :=
  py "Index: " ++ index_text ++ [newline] ++
  concat (map (fun j => nth j columns [] ++ py ": " ++
                        str_of repr (nth j values PNone) ++ [newline])
            (seq 0 (length columns))) ++
  [newline].

(** [out] is one block per record, in row order; [index_text i label] is
    what the index line of record [i], whose row label is [label], states. *)
Definition tabular_layout (repr : pyval -> str) (index_text : nat -> pyval -> str)
  (df : DataFrame) (out : str) : Prop :=
  exists blocks,
    length blocks = length (df_iterrows df) /\
    out = concat blocks /\
    forall i label values,
      nth_error (df_iterrows df) i = Some (label, values) ->
      nth_error blocks i = Some (block repr (df_columns df) (index_text i label) values).

(** Every row has one value per column. *)
Definition rectangular (df : DataFrame) : Prop :=
  Forall (fun row => length (snd row) = length (df_columns df)) (df_iterrows df).

(** The row labels are the default ones: 0, 1, 2, ... *)
Definition default_index (df : DataFrame) : Prop :=
  forall i label values,
    nth_error (df_iterrows df) i = Some (label, values) -> label = PInt (Z.of_nat i).

(** The text a stage hands to [json.loads] for the response body
    [content]: the stripped body when it starts with the array-open
    character, else the part from the first array-open to the last
    array-close character, and nothing when there is no such part. *)
Definition array_text (content : str) : option str :=
  if startswith (strip content) (py "[") then Some (strip content)
  else
    let json_start := find content (py "[") 0 in
    let json_end := rfind content (py "]") + 1 in
    if (json_start >=? 0) && (json_end >? json_start)
    then Some (slice content json_start json_end)
    else None.

(** The body cannot be parsed into an array: no array brackets are found,
    or [json.loads] raises on the text between them. *)
Definition unparseable (json_loads : str -> option pyval) (content : str) : Prop :=
  match array_text content with
  | None => True
  | Some t => json_loads t = None
  end.

(** ** Inputs the properties are tried on *)

(** The table [read_csv] returns for the three lines "a,b", "4,apple,bat"
    and "8,orange,cow": the records have one field more than the header, so
    their first field is the row label. *)
Definition labelled_table : DataFrame :=
  mkDataFrame [py "a"; py "b"]
    [(PInt 4, [PStr (py "apple"); PStr (py "bat")]);
     (PInt 8, [PStr (py "orange"); PStr (py "cow")])].

(** A finding whose value is one space, and one whose value is the whole
    text "Hello". *)
Definition blank_finding : dict := [(py "value", PStr (py " "))].
Definition hello_finding : dict := [(py "value", PStr (py "Hello"))].

(** The spans the resolver accepts for them in the text "Hello". *)
Definition blank_span : Span := mkSpan 0 0 [] (PStr (py "Unknown")) blank_finding.
Definition hello_span : Span := mkSpan 0 5 (py "Hello") (PStr (py "Unknown")) hello_finding.

(** A state after Detection, with one finding in its history. *)
Definition detected_state : docState :=
  mkDocState [] (py "png") (py "Patient John Doe")
    [PList [PDict [(py "type", PStr (py "Names")); (py "value", PStr (py "John Doe"))]]] [].

(** The range of a span and the value it holds. *)
Definition span_range (sp : Span) : Z * Z * str :=
  (sp_start sp, sp_end sp, sp_value sp).

(** What an accepted span owes to the findings and to the text: it comes
    from one of the findings, holds the stripped string form of the truthy
    value of that finding, lies within the text and covers that very form
    there. *)
Definition span_sound (repr : pyval -> str) (text : str)
  (phi_instances : list pyval) (sp : Span) : Prop :=
  In (PDict (sp_original_instance sp)) phi_instances /\
  (exists v, dict_get (sp_original_instance sp) (py "value") = Some v /\
             truthy v = true /\ sp_value sp = strip (str_of repr v)) /\
  sp_phi_type sp =
    dict_get_default (sp_original_instance sp) (py "PHI type")
      (dict_get_default (sp_original_instance sp) (py "type") (PStr (py "Unknown"))) /\
  0 <= sp_start sp /\ sp_end sp <= len text /\
  slice text (sp_start sp) (sp_end sp) = sp_value sp.

(** An entry the first loop cannot take a value from: [None], a bool, a
    number, or a string in which "value" occurs. *)
Definition unusable_entry (instance : pyval) : Prop :=
  instance = PNone \/ (exists b, instance = PBool b) \/ (exists z, instance = PInt z) \/
  (exists f, instance = PFloat f) \/
  (exists s p, instance = PStr s /\ occurs_at s (py "value") p).

(** [sep.join(parts)] for a separator of one character. *)
Fixpoint join_char (sep : char) (parts : list str) : str :=
  match parts with
  | [] => []
  | [part] => part
  | part :: rest => part ++ sep :: join_char sep rest
  end.

(** The interpreter's default limit on the digits of an integer that
    [str] and [repr] convert ([sys.int_info.default_max_str_digits]). *)
Definition int_max_str_digits : Z := 4300.

(** [str(v)] returns for a string, [None], a bool, a float and an integer
    within the limit. *)
Definition str_returns (v : pyval) : Prop :=
  match v with
  | PNone | PBool _ | PFloat _ | PStr _ => True
  | PInt z => Z.abs z < 10 ^ int_max_str_digits
  | PList _ | PDict _ => False
  end.

(** Every field of every finding of the argument is such a value. *)
Definition fields_convert (phi_instances : pyval) : Prop :=
  forall l d k v,
    phi_instances = PList l -> In (PDict d) l -> In (k, v) d -> str_returns v.

(** What Classification is taken to know of [json.loads]: parsing a text
    that starts with the array-open character gives a list when it gives
    anything. *)
Definition arrays_parse_to_lists (json_loads : str -> option pyval) : Prop :=
  forall t v, startswith t (py "[") = true -> json_loads t = Some v -> is_list v = true.

(** The PHI type under which a finding is shown and counted. *)
Definition phi_type_of (instance : dict) : pyval :=
  dict_get_default instance (py "PHI type")
    (dict_get_default instance (py "type") (PStr (py "Unknown"))).

(** How many of the findings have the string [t] as their PHI type. *)
Definition occurrences (t : str) (phi_instances : list dict) : Z :=
  len (filter (fun d => match phi_type_of d with PStr s => str_eqb s t | _ => false end)
         phi_instances).

Definition is_str (v : pyval) : Prop := exists s, v = PStr s.

(** Rows with string keys, no key twice. *)
Definition rows_wf (r : list (pyval * Z)) : Prop :=
  Forall (fun kn => is_str (fst kn)) r /\ NoDup (map fst r).

(** The rows hold the types counted so far, each with its count. *)
Definition rows_count (r : list (pyval * Z)) (counted : list dict) : Prop :=
  rows_wf r /\
  (forall k n, In (k, n) r -> exists t, k = PStr t /\ n = occurrences t counted /\ 0 < n) /\
  (forall t, 0 < occurrences t counted -> In (PStr t, occurrences t counted) r).

(** * Properties *)

(** ** The string operations on small inputs *)

Example find_examples :
  find (py "Ann met Ann") (py "Ann") 0 = 0 /\
  find (py "Ann met Ann") (py "Ann") 1 = 8 /\
  find (py "Ann met Ann") (py "Bob") 0 = -1 /\
  find (py "abc") [] 3 = 3 /\
  find (py "abc") [] 4 = -1 /\
  rfind (py "see [1] and [2].") (py "]") = 14 /\
  rfind (py "none") (py "]") = -1.
Proof. repeat split. Qed.

Example strip_examples :
  strip (py "  John Doe ") = py "John Doe" /\
  strip ([newline; 9%N] ++ py "[]" ++ [newline]) = py "[]" /\
  strip (py "   ") = [] /\
  startswith (py "[1, 2]") (py "[") = true /\
  slice (py "see [1] and [2].") 4 15 = py "[1] and [2]" /\
  slice_to (py "Hello") 0 = [] /\
  slice_from (py "Hello") 5 = [] /\
  str_of_int 12 = py "12" /\
  str_of_int (-7) = py "-7" /\
  str_of_int 0 = py "0".
Proof. repeat split. Qed.

(** ** Occurrences and [str.find] *)

Lemma startswith_iff (s sub : str) :
  startswith s sub = true <-> exists post, s = sub ++ post.
Proof.
  revert s; induction sub as [|p sub IH]; intros s; simpl.
  - split; [exists s; reflexivity | reflexivity].
  - destruct s as [|c s]; simpl.
    + split; [discriminate | intros [post H]; discriminate].
    + rewrite andb_true_iff, N.eqb_eq, IH. split.
      * intros [-> [post ->]]. now exists post.
      * intros [post H]. injection H as -> ->. split; [reflexivity | now exists post].
Qed.

Lemma len_nonneg {A : Type} (s : list A) : 0 <= len s.
Proof. unfold len; lia. Qed.

Lemma len_app {A : Type} (a b : list A) : len (a ++ b) = len a + len b.
Proof. unfold len; rewrite length_app; lia. Qed.

Lemma occurs_at_skipn (text value : str) (p : Z) :
  occurs_at text value p <->
  0 <= p <= len text /\ startswith (skipn (Z.to_nat p) text) value = true.
Proof.
  split.
  - intros (pre & post & -> & <-). split.
    + rewrite len_app. pose proof (len_nonneg pre). pose proof (len_nonneg (value ++ post)). lia.
    + unfold len. rewrite Nat2Z.id, skipn_app, skipn_all, Nat.sub_diag. simpl.
      apply startswith_iff. now exists post.
  - intros [Hp Hs]. apply startswith_iff in Hs as [post Hpost].
    exists (firstn (Z.to_nat p) text), post. split.
    + rewrite <- Hpost. symmetry. apply firstn_skipn.
    + unfold len in *. rewrite length_firstn. lia.
Qed.

Lemma occurs_at_bounds (text value : str) (p : Z) :
  occurs_at text value p -> 0 <= p /\ p + len value <= len text.
Proof.
  intros (pre & post & -> & <-). rewrite !len_app.
  pose proof (len_nonneg pre). pose proof (len_nonneg post). lia.
Qed.

Lemma find_at_spec (sub : str) : forall (s : str) (i : Z), 0 <= i ->
  (find_at s sub i = -1 /\
   forall k, (k <= length s)%nat -> startswith (skipn k s) sub = false)
  \/
  (exists k, find_at s sub i = i + Z.of_nat k /\ (k <= length s)%nat /\
     startswith (skipn k s) sub = true /\
     forall j, (j < k)%nat -> startswith (skipn j s) sub = false).
Proof.
  induction s as [|c s IH]; intros i Hi; simpl find_at.
  - destruct (startswith [] sub) eqn:E.
    + right. exists 0%nat. simpl. repeat split; auto; try lia.
    + left. split; [reflexivity|]. intros k Hk. simpl in Hk.
      replace k with 0%nat by lia. exact E.
  - destruct (startswith (c :: s) sub) eqn:E.
    + right. exists 0%nat. simpl. repeat split; auto; try lia.
    + destruct (IH (i + 1) ltac:(lia)) as [[Hr Hall] | (k & Hr & Hk & Hs & Hlt)].
      * left. split; [exact Hr|]. intros [|k] Hk; [exact E|].
        simpl. apply Hall. simpl in Hk. lia.
      * right. exists (S k). simpl. repeat split; auto; try lia.
        intros [|j] Hj; [exact E|]. simpl. apply Hlt. lia.
Qed.

(** [find] returns the leftmost occurrence at or after [start], or -1 when
    there is none. *)
Lemma find_spec (text value : str) (start : Z) : 0 <= start ->
  (find text value start = -1 /\
   forall p, start <= p -> ~ occurs_at text value p)
  \/
  (start <= find text value start /\
   occurs_at text value (find text value start) /\
   forall p, start <= p < find text value start -> ~ occurs_at text value p).
Proof.
  intros Hs. unfold find.
  replace (start <? 0) with false by (symmetry; apply Z.ltb_ge; lia).
  destruct (Z.ltb_spec (len text) start) as [Hlt | Hle].
  - left. split; [reflexivity|]. intros p Hp Ho.
    apply occurs_at_bounds in Ho. pose proof (len_nonneg value). lia.
  - assert (Hlen : length (skipn (Z.to_nat start) text)
                   = (length text - Z.to_nat start)%nat) by apply length_skipn.
    destruct (find_at_spec value (skipn (Z.to_nat start) text) start Hs)
      as [[Hr Hall] | (k & Hr & Hk & Hst & Hlt)].
    + left. split; [exact Hr|]. intros p Hp Ho.
      apply occurs_at_skipn in Ho as [Hb Ho].
      specialize (Hall (Z.to_nat p - Z.to_nat start)%nat).
      rewrite skipn_skipn in Hall.
      replace (Z.to_nat p - Z.to_nat start + Z.to_nat start)%nat
        with (Z.to_nat p) in Hall by lia.
      rewrite Hall in Ho; [discriminate|]. unfold len in *. lia.
    + right. rewrite Hr. rewrite skipn_skipn in Hst. unfold len in *.
      split; [lia|]. split.
      * apply occurs_at_skipn. split; [unfold len; lia|].
        replace (Z.to_nat (start + Z.of_nat k)) with (k + Z.to_nat start)%nat by lia.
        exact Hst.
      * intros p Hp Ho. apply occurs_at_skipn in Ho as [Hb Ho].
        specialize (Hlt (Z.to_nat p - Z.to_nat start)%nat).
        rewrite skipn_skipn in Hlt.
        replace (Z.to_nat p - Z.to_nat start + Z.to_nat start)%nat
          with (Z.to_nat p) in Hlt by lia.
        rewrite Hlt in Ho; [discriminate | lia].
Qed.

(** ** The [while True] loop *)

(** The loop returns within [enough_fuel] rounds, with the leftmost
    occurrence from [search_start] on that the overlap test lets through. *)
Lemma search_spec (text value : str) (acc : list Span) :
  forall (fuel : nat) (start : Z),
    0 <= start <= len text + 1 ->
    len text + 2 <= Z.of_nat fuel + start ->
    (search fuel text value acc start = Ret NotFound /\
     forall p, start <= p -> occurs_at text value p ->
               existsb (overlaps p value) acc = true)
    \/
    (exists pos,
       search fuel text value acc start = Ret (Accepted pos) /\
       start <= pos /\ occurs_at text value pos /\
       existsb (overlaps pos value) acc = false /\
       forall p, start <= p < pos -> occurs_at text value p ->
                 existsb (overlaps p value) acc = true).
Proof.
  induction fuel as [|fuel IH]; intros start Hs Hf; [lia|].
  simpl search.
  destruct (find_spec text value start ltac:(lia)) as [[Hr Hnone] | (Hge & Hocc & Hleft)].
  - rewrite Hr. simpl. left. split; [reflexivity|].
    intros p Hp Ho. now apply Hnone in Ho.
  - set (pos := find text value start) in *.
    replace (pos =? -1) with false by (symmetry; apply Z.eqb_neq; lia).
    destruct (existsb (overlaps pos value) acc) eqn:Ecl.
    + pose proof (occurs_at_bounds _ _ _ Hocc) as Hb. pose proof (len_nonneg value).
      destruct (IH (pos + 1) ltac:(lia) ltac:(lia))
        as [[Hr Hall] | (q & Hr & Hq & Hoq & Hfq & Hlq)].
      * left. split; [exact Hr|]. intros p Hp Ho.
        destruct (Z.eq_dec p pos) as [-> | Hne]; [exact Ecl|].
        destruct (Z.lt_ge_cases p pos) as [Hlt | Hge'].
        -- exfalso. apply (Hleft p); [lia | exact Ho].
        -- apply Hall; [lia | exact Ho].
      * right. exists q. repeat split; auto; try lia.
        intros p Hp Ho.
        destruct (Z.eq_dec p pos) as [-> | Hne]; [exact Ecl|].
        destruct (Z.lt_ge_cases p pos) as [Hlt | Hge'].
        -- exfalso. apply (Hleft p); [lia | exact Ho].
        -- apply Hlq; [lia | exact Ho].
    + right. exists pos. repeat split; auto.
      intros p Hp Ho. exfalso. apply (Hleft p); [lia | exact Ho].
Qed.

Lemma search_from_0 (text value : str) (acc : list Span) :
  (search (enough_fuel text) text value acc 0 = Ret NotFound /\
   forall p, occurs_at text value p -> existsb (overlaps p value) acc = true)
  \/
  (exists pos,
     search (enough_fuel text) text value acc 0 = Ret (Accepted pos) /\
     occurs_at text value pos /\
     existsb (overlaps pos value) acc = false /\
     forall p, p < pos -> occurs_at text value p ->
               existsb (overlaps p value) acc = true).
Proof.
  pose proof (len_nonneg text) as Hl.
  destruct (search_spec text value acc (enough_fuel text) 0)
    as [[Hr Hall] | (pos & Hr & Hp & Ho & Hf & Hlt)].
  - lia.
  - unfold enough_fuel, len. lia.
  - left. split; [exact Hr|]. intros p Ho. apply Hall; [|exact Ho].
    apply occurs_at_bounds in Ho. lia.
  - right. exists pos. repeat split; auto. intros p Hlt' Ho'.
    apply Hlt; [|exact Ho']. apply occurs_at_bounds in Ho'. lia.
Qed.

(** The empty string occurs at offset 0 of every text. *)
Lemma occurs_at_empty (text : str) : occurs_at text [] 0.
Proof. exists [], text. split; reflexivity. Qed.

Lemma overlaps_empty_at_0 (text : str) (acc : list Span) :
  Forall (fun sp => 0 <= sp_start sp) acc ->
  existsb (overlaps 0 []) acc = false.
Proof.
  induction 1 as [|sp acc Hsp _ IH]; [reflexivity|].
  simpl. rewrite IH, orb_false_r. unfold overlaps.
  apply negb_false_iff, orb_true_iff. right. apply Z.leb_le. simpl. exact Hsp.
Qed.

(** ** What the accepted spans satisfy *)

Lemma span_wf_start (text : str) (sp : Span) : span_wf text sp -> 0 <= sp_start sp.
Proof. intros [Ho _]. now apply occurs_at_bounds in Ho. Qed.

Lemma ForallOrdPairs_snoc {A : Type} (R : A -> A -> Prop) (l : list A) (x : A) :
  ForallOrdPairs R l -> Forall (fun y => R y x) l -> ForallOrdPairs R (l ++ [x]).
Proof.
  induction 1 as [|a l Ha Hl IH]; intros Hx; simpl.
  - constructor; constructor.
  - inversion Hx; subst. constructor.
    + apply Forall_app. split; [exact Ha | constructor; [assumption | constructor]].
    + apply IH. assumption.
Qed.

Lemma existsb_overlaps_false (pos : Z) (value : str) (acc : list Span) :
  existsb (overlaps pos value) acc = false ->
  Forall (fun e => pos >= sp_end e \/ pos + len value <= sp_start e) acc.
Proof.
  induction acc as [|e acc IH]; simpl; intros H; constructor.
  - apply orb_false_iff in H as [H _]. unfold overlaps in H.
    apply negb_false_iff, orb_true_iff in H as [H | H].
    + left. apply Z.geb_le in H. lia.
    + right. now apply Z.leb_le.
  - apply IH. now apply orb_false_iff in H as [_ H].
Qed.

Lemma ForallOrdPairs_nth {A : Type} (R : A -> A -> Prop) (l : list A) :
  ForallOrdPairs R l ->
  forall i j a b, (i < j)%nat ->
    nth_error l i = Some a -> nth_error l j = Some b -> R a b.
Proof.
  induction 1 as [|x l Hx Hl IH]; intros i j a b Hij Hi Hj.
  - destruct i; discriminate.
  - destruct j as [|j]; [lia|]. simpl in Hj. destruct i as [|i]; simpl in Hi.
    + injection Hi as <-. rewrite Forall_forall in Hx. apply Hx.
      eapply nth_error_In; eassumption.
    + apply (IH i j); auto. lia.
Qed.

Section ResolverFacts.

Variable repr : pyval -> str.

(** The body of the first loop, case by case. *)
Lemma resolve_dict_cases (text : str) (acc : list Span) (instance : dict) :
  (resolve_dict repr text acc instance = Ret acc /\
   (dict_get instance (py "value") = None \/
    exists v, dict_get instance (py "value") = Some v /\ truthy v = false))
  \/
  (exists v, dict_get instance (py "value") = Some v /\ truthy v = true /\
     let value := strip (str_of repr v) in
     (resolve_dict repr text acc instance = Ret acc /\
      forall p, occurs_at text value p -> existsb (overlaps p value) acc = true)
     \/
     (exists pos,
        resolve_dict repr text acc instance = Ret (acc ++ [span_of instance value pos]) /\
        occurs_at text value pos /\
        existsb (overlaps pos value) acc = false /\
        forall p, p < pos -> occurs_at text value p ->
                  existsb (overlaps p value) acc = true)).
Proof.
  unfold resolve_dict.
  destruct (dict_get instance (py "value")) as [v|] eqn:Ev; [|left; auto].
  destruct (truthy v) eqn:Et; [|left; split; [reflexivity | right; eauto]].
  right. exists v. split; [reflexivity|]. split; [exact Et|]. cbv zeta.
  destruct (search_from_0 text (strip (str_of repr v)) acc)
    as [[Hr Hall] | (pos & Hr & Ho & Hf & Hlt)]; rewrite Hr; simpl.
  - left. auto.
  - right. exists pos. auto.
Qed.

Lemma resolve_dict_ok (text : str) (acc : list Span) (instance : dict) :
  accepted_ok text acc ->
  exists acc', resolve_dict repr text acc instance = Ret acc' /\ accepted_ok text acc'.
Proof.
  intros [Hwf Hap].
  destruct (resolve_dict_cases text acc instance)
    as [[Hr _] | (v & Ev & Et & [[Hr _] | (pos & Hr & Ho & Hf & Hlt)])];
    rewrite Hr; eexists; (split; [reflexivity|]); try (split; assumption).
  set (value := strip (str_of repr v)) in *.
  split.
  - apply Forall_app. split; [exact Hwf|]. constructor; [|constructor].
    unfold span_wf, span_of; simpl. repeat split; auto.
    intros E. rewrite E in *.
    destruct (Z.eq_dec pos 0) as [-> | Hne]; [reflexivity|].
    exfalso.
    assert (H0 : existsb (overlaps 0 []) acc = false).
    { apply (overlaps_empty_at_0 text). eapply Forall_impl; [|exact Hwf].
      intros sp. apply span_wf_start. }
    apply occurs_at_bounds in Ho.
    rewrite (Hlt 0 ltac:(lia) (occurs_at_empty text)) in H0. discriminate.
  - apply ForallOrdPairs_snoc; [exact Hap|].
    apply existsb_overlaps_false in Hf.
    eapply Forall_impl; [|exact Hf]. intros e He.
    unfold apart, span_of; cbn [sp_start sp_end]. cbv beta in He. lia.
Qed.

Lemma bind_ret {A : Type} (m : outcome A) : bind m Ret = m.
Proof. destruct m; reflexivity. Qed.

Lemma collect_from_app (text : str) (l1 l2 : list pyval) : forall acc,
  collect_from repr text acc (l1 ++ l2) =
  bind (collect_from repr text acc l1) (fun acc' => collect_from repr text acc' l2).
Proof.
  induction l1 as [|x l1 IH]; intros acc; simpl; [reflexivity|].
  destruct (resolve_instance repr text acc x); simpl; auto.
Qed.

Lemma resolve_instance_ok (text : str) (acc acc' : list Span) (instance : pyval) :
  accepted_ok text acc ->
  resolve_instance repr text acc instance = Ret acc' ->
  accepted_ok text acc'.
Proof.
  intros Hok. destruct instance; simpl; try discriminate.
  - destruct (find s (py "value") 0 =? -1); [|discriminate].
    intros H; injection H as <-; exact Hok.
  - destruct (existsb is_value_key l); [discriminate|].
    intros H; injection H as <-; exact Hok.
  - destruct (resolve_dict_ok text acc d Hok) as (a & Hr & Ha).
    rewrite Hr. intros H; injection H as <-; exact Ha.
Qed.

Lemma collect_from_ok (text : str) (l : list pyval) : forall acc acc',
  accepted_ok text acc ->
  collect_from repr text acc l = Ret acc' ->
  accepted_ok text acc'.
Proof.
  induction l as [|x l IH]; intros acc acc' Hok; simpl.
  - intros H; injection H as <-; exact Hok.
  - destruct (resolve_instance repr text acc x) as [a| |] eqn:E; simpl; try discriminate.
    apply IH. eapply resolve_instance_ok; eassumption.
Qed.

Lemma accepted_ok_nil (text : str) : accepted_ok text [].
Proof. split; constructor. Qed.

Lemma collect_ok (text : str) (l : list pyval) (spans : list Span) :
  collect repr text l = Ret spans -> accepted_ok text spans.
Proof. apply collect_from_ok, accepted_ok_nil. Qed.

(** On findings that are all [dict]s the first loop raises nothing. *)
Lemma collect_from_dicts (text : str) (l : list dict) : forall acc,
  accepted_ok text acc ->
  exists acc', collect_from repr text acc (map PDict l) = Ret acc'.
Proof.
  induction l as [|d l IH]; intros acc Hok; simpl; [eauto|].
  destruct (resolve_dict_ok text acc d Hok) as (a & Hr & Ha).
  rewrite Hr. simpl. apply IH, Ha.
Qed.

Lemma collect_snoc (text : str) (pre : list dict) (d : dict) (acc : list Span) :
  collect repr text (map PDict pre) = Ret acc ->
  collect repr text (map PDict (pre ++ [d])) = resolve_dict repr text acc d.
Proof.
  intros H. unfold collect in *. rewrite map_app, collect_from_app, H. simpl.
  apply bind_ret.
Qed.

(** The overlap test of the code against the meeting of two ranges. *)
Lemma overlaps_iff_meet (text value : str) (pos : Z) (e : Span) :
  span_wf text e -> 0 <= pos -> value <> [] ->
  (overlaps pos value e = true <->
   ranges_meet pos (pos + len value) (sp_start e) (sp_end e)).
Proof.
  intros (Ho & He & Hz) Hp Hv.
  assert (0 < len value) by (destruct value; [congruence | unfold len; simpl; lia]).
  apply occurs_at_bounds in Ho.
  assert (Hcase : sp_start e < sp_end e \/ (sp_start e = 0 /\ sp_end e = 0)).
  { destruct (sp_value e) eqn:E.
    - right. specialize (Hz eq_refl). unfold len in He; simpl in He. lia.
    - left. unfold len in He; simpl in He. lia. }
  unfold overlaps, ranges_meet.
  rewrite negb_true_iff, orb_false_iff, Z.geb_leb, !Z.leb_gt.
  split.
  - intros [H1 H2]. exists (Z.max pos (sp_start e)). lia.
  - intros (x & H1 & H2). lia.
Qed.

Lemma existsb_overlaps_iff_free (text value : str) (pos : Z) (acc : list Span) :
  Forall (span_wf text) acc -> 0 <= pos -> value <> [] ->
  (existsb (overlaps pos value) acc = false <-> free acc pos (len value)).
Proof.
  intros Hwf Hp Hv. unfold free. split.
  - intros Hex sp Hin Hmeet.
    rewrite Forall_forall in Hwf.
    apply (overlaps_iff_meet text value pos sp (Hwf sp Hin) Hp Hv) in Hmeet.
    assert (existsb (overlaps pos value) acc = true)
      by (apply existsb_exists; eauto).
    congruence.
  - intros Hfree. destruct (existsb (overlaps pos value) acc) eqn:E; [|reflexivity].
    apply existsb_exists in E as (sp & Hin & Hov). exfalso.
    rewrite Forall_forall in Hwf.
    apply (Hfree sp Hin).
    now apply (overlaps_iff_meet text value pos sp (Hwf sp Hin) Hp Hv).
Qed.

End ResolverFacts.

(** ** The accepted spans *)

(** C3: the spans the resolver accepts are pairwise apart: of any two of
    them, one ends where or before the other starts.  On findings that are
    all [dict]s the first loop does return its spans. *)
Theorem accepted_spans_pairwise_apart :
  forall (repr : pyval -> str) (text : str),
    (forall findings : list dict,
       exists spans, collect repr text (map PDict findings) = Ret spans)
    /\
    (forall (phi_instances : list pyval) (spans : list Span),
       collect repr text phi_instances = Ret spans ->
       forall (i j : nat) (a b : Span),
         i <> j -> nth_error spans i = Some a -> nth_error spans j = Some b ->
         sp_end a <= sp_start b \/ sp_end b <= sp_start a).
Proof.
  intros repr text. split.
  - intros findings. apply collect_from_dicts, accepted_ok_nil.
  - intros l spans Hc i j a b Hij Ha Hb.
    apply collect_ok in Hc as [_ Hap].
    destruct (Nat.lt_ge_cases i j) as [Hlt | Hge].
    + exact (ForallOrdPairs_nth apart spans Hap i j a b Hlt Ha Hb).
    + assert (Hji : (j < i)%nat) by lia.
      destruct (ForallOrdPairs_nth apart spans Hap j i b a Hji Hb Ha) as [H | H];
        [right | left]; exact H.
Qed.

(** C2, as the code has it: a finding is looked up by the stripped string
    form of its value.  Every finding whose value is truthy and does not
    strip to the empty string is given the leftmost occurrence of that form
    that meets no range accepted before it, or no span when there is none;
    every finding adds one span at most; nothing is raised. *)
Theorem resolver_accepts_leftmost_free_occurrence :
  forall (repr : pyval -> str) (text : str) (findings : list dict),
    resolver_spec repr strip text findings.
Proof.
  intros repr text findings. split.
  - apply collect_from_dicts, accepted_ok_nil.
  - intros pre d post _.
    destruct (collect_from_dicts repr text pre [] (accepted_ok_nil text)) as [acc Hacc].
    fold (collect repr text (map PDict pre)) in Hacc.
    exists acc. split; [exact Hacc|].
    rewrite (collect_snoc repr text pre d acc Hacc).
    pose proof (collect_ok repr text _ _ Hacc) as [Hwf _].
    unfold at_most_one_more, step_spec.
    destruct (resolve_dict_cases repr text acc d)
      as [[Hr [Hn | (v & Ev & Et)]]
         | (v & Ev & Et & [[Hr Hall] | (pos & Hr & Ho & Hf & Hlt)])].
    + rewrite Hn. auto.
    + rewrite Ev, Et. auto.
    + rewrite Ev, Et. split; [auto|]. intros Hne. right. split; [|exact Hr].
      intros p Hp Hfree. pose proof (occurs_at_bounds _ _ _ Hp) as Hb.
      apply (existsb_overlaps_iff_free text) in Hfree; auto; try lia.
      rewrite (Hall p Hp) in Hfree. discriminate.
    + rewrite Ev, Et. split; [eauto|]. intros Hne. left.
      exists pos, (span_of d (strip (str_of repr v)) pos).
      pose proof (occurs_at_bounds _ _ _ Ho) as Hb.
      repeat split; auto.
      * apply (existsb_overlaps_iff_free text); auto; lia.
      * intros p Hp Hop Hfree. pose proof (occurs_at_bounds _ _ _ Hop) as Hb'.
        apply (existsb_overlaps_iff_free text) in Hfree; auto; try lia.
        rewrite (Hlt p Hp Hop) in Hfree. discriminate.
Qed.

(** The claim read with the value as it stands fails: the text "John" holds
    no occurrence of " John", and the resolver still accepts a span for a
    finding of that value (the one of "John" at offset 0). *)
Lemma literal_value_lookup_refuted :
  ~ exists repr : pyval -> str,
      resolver_spec repr (fun value => value) (py "John")
        [[(py "value", PStr (py " John"))]].
Proof.
  intros (repr & _ & H).
  destruct (H [] [(py "value", PStr (py " John"))] [] eq_refl) as (acc & Hacc & _ & Hstep).
  injection Hacc as <-.
  unfold step_spec in Hstep. simpl dict_get in Hstep. simpl truthy in Hstep.
  cbv zeta in Hstep.
  destruct (Hstep ltac:(discriminate)) as [(pos & sp & (Ho & _) & _) | [_ Hr]].
  - apply occurs_at_bounds in Ho. simpl str_of in Ho.
    change (len (py " John")) with 5 in Ho. change (len (py "John")) with 4 in Ho. lia.
  - vm_compute in Hr. discriminate.
Qed.

Lemma strip_all_space (s : str) : forallb isspace s = true -> strip s = [].
Proof.
  intros H. unfold strip.
  assert (E : lstrip s = []).
  { induction s as [|c s IH]; [reflexivity|]. simpl in *.
    apply andb_true_iff in H as [-> H]. auto. }
  rewrite E. reflexivity.
Qed.

(** C10: the guard tests the value as it stands and the lookup uses its
    stripped form, so a finding whose value is a non-empty string of
    whitespace only is looked up as the empty string and is given the empty
    span at offset 0, whatever was accepted before it. *)
Theorem whitespace_only_value_accepted_at_0 :
  forall (repr : pyval -> str) (text : str) (pre : list dict) (d : dict) (s : str),
    dict_get d (py "value") = Some (PStr s) ->
    s <> [] ->
    forallb isspace s = true ->
    strip (str_of repr (PStr s)) = [] /\
    exists acc,
      collect repr text (map PDict pre) = Ret acc /\
      collect repr text (map PDict (pre ++ [d])) =
      Ret (acc ++ [mkSpan 0 0 []
                     (dict_get_default d (py "PHI type")
                        (dict_get_default d (py "type") (PStr (py "Unknown"))))
                     d]).
Proof.
  intros repr text pre d s Hv Hne Hsp.
  pose proof (strip_all_space s Hsp) as Hstrip.
  split; [exact Hstrip|].
  destruct (collect_from_dicts repr text pre [] (accepted_ok_nil text)) as [acc Hacc].
  fold (collect repr text (map PDict pre)) in Hacc.
  exists acc. split; [exact Hacc|].
  rewrite (collect_snoc repr text pre d acc Hacc).
  pose proof (collect_ok repr text _ _ Hacc) as [Hwf _].
  assert (H0 : existsb (overlaps 0 []) acc = false).
  { apply (overlaps_empty_at_0 text). eapply Forall_impl; [|exact Hwf].
    intros sp. apply span_wf_start. }
  destruct (resolve_dict_cases repr text acc d)
    as [[_ [Hn | (v & Ev & Et)]]
       | (v & Ev & _ & [[_ Hall] | (pos & Hr & Ho & _ & Hlt)])].
  - congruence.
  - rewrite Hv in Ev. injection Ev as <-. destruct s; [congruence | discriminate].
  - rewrite Hv in Ev. injection Ev as <-. simpl str_of in Hall. rewrite Hstrip in Hall.
    rewrite (Hall 0 (occurs_at_empty text)) in H0. discriminate.
  - rewrite Hv in Ev. injection Ev as <-. simpl str_of in *. rewrite Hstrip in *.
    destruct (Z.eq_dec pos 0) as [-> | Hp].
    + exact Hr.
    + apply occurs_at_bounds in Ho.
      rewrite (Hlt 0 ltac:(lia) (occurs_at_empty text)) in H0. discriminate.
Qed.

Lemma whitespace_only_value_accepted_at_0_witness :
  strip (py "  ") = [] /\
  exists acc,
    collect (fun _ => []) (py "Hello") (map PDict [hello_finding]) = Ret acc /\
    collect (fun _ => []) (py "Hello")
      (map PDict ([hello_finding] ++ [[(py "value", PStr (py "  "))]])) =
    Ret (acc ++ [mkSpan 0 0 [] (PStr (py "Unknown")) [(py "value", PStr (py "  "))]]).
Proof.
  apply (whitespace_only_value_accepted_at_0 (fun _ => []) (py "Hello") [hello_finding]
           [(py "value", PStr (py "  "))] (py "  ")).
  - reflexivity.
  - discriminate.
  - reflexivity.
Defined.

Lemma accepted_spans_pairwise_apart_witness :
  sp_end (mkSpan 0 4 (py "John") (PStr (py "Names"))
            [(py "value", PStr (py "John")); (py "type", PStr (py "Names"))])
  <= sp_start (mkSpan 5 8 (py "Doe") (PStr (py "Unknown")) [(py "value", PStr (py "Doe"))])
  \/
  sp_end (mkSpan 5 8 (py "Doe") (PStr (py "Unknown")) [(py "value", PStr (py "Doe"))])
  <= sp_start (mkSpan 0 4 (py "John") (PStr (py "Names"))
                 [(py "value", PStr (py "John")); (py "type", PStr (py "Names"))]).
Proof.
  apply (proj2 (accepted_spans_pairwise_apart (fun _ => []) (py "John Doe"))
           [PDict [(py "value", PStr (py "John")); (py "type", PStr (py "Names"))];
            PDict [(py "value", PStr (py "Doe"))]]
           _ eq_refl 0%nat 1%nat).
  - discriminate.
  - reflexivity.
  - reflexivity.
Defined.

(** ** Slices *)

Lemma clip_in_range {A : Type} (s : list A) (i : Z) :
  0 <= i <= len s -> clip s i = Z.to_nat i.
Proof.
  intros H. unfold clip.
  replace (i <? 0) with false by (symmetry; apply Z.ltb_ge; lia).
  f_equal. lia.
Qed.

Lemma slice_to_of_prefix {A : Type} (text suffix : list A) (a c : Z) :
  0 <= a <= c -> c <= len text ->
  slice_to (slice_to text c ++ suffix) a = slice_to text a.
Proof.
  intros Ha Hc. unfold slice_to.
  rewrite (clip_in_range text c), (clip_in_range text a) by lia.
  assert (Hl : length (firstn (Z.to_nat c) text) = Z.to_nat c)
    by (rewrite length_firstn; unfold len in *; lia).
  rewrite clip_in_range by (rewrite len_app; unfold len at 1; rewrite Hl;
                            pose proof (len_nonneg suffix); lia).
  rewrite firstn_app, Hl, firstn_firstn.
  replace (Z.to_nat a - Z.to_nat c)%nat with 0%nat by lia.
  rewrite firstn_O, app_nil_r. f_equal. lia.
Qed.

Lemma slice_from_of_prefix {A : Type} (text suffix : list A) (b c : Z) :
  0 <= b <= c -> c <= len text ->
  slice_from (slice_to text c ++ suffix) b = slice text b c ++ suffix.
Proof.
  intros Hb Hc. unfold slice_from, slice_to, slice.
  rewrite (clip_in_range text c), (clip_in_range text b) by lia.
  assert (Hl : length (firstn (Z.to_nat c) text) = Z.to_nat c)
    by (rewrite length_firstn; unfold len in *; lia).
  rewrite clip_in_range by (rewrite len_app; unfold len at 1; rewrite Hl;
                            pose proof (len_nonneg suffix); lia).
  rewrite skipn_app, Hl, skipn_firstn_comm.
  replace (Z.to_nat b - Z.to_nat c)%nat with 0%nat by lia.
  reflexivity.
Qed.

Lemma slice_from_0 {A : Type} (text : list A) (c : Z) :
  0 <= c <= len text -> slice text 0 c = slice_to text c.
Proof.
  intros Hc. unfold slice, slice_to.
  rewrite (clip_in_range text 0) by (pose proof (len_nonneg text); lia).
  simpl. f_equal. lia.
Qed.

Lemma slice_to_all {A : Type} (text : list A) : slice_to text (len text) = text.
Proof.
  unfold slice_to. rewrite clip_in_range by (pose proof (len_nonneg text); lia).
  unfold len. rewrite Nat2Z.id. apply firstn_all.
Qed.

(** The slice at an occurrence is the value that occurs there. *)
Lemma slice_at_occurrence (text value : str) (p : Z) :
  occurs_at text value p -> slice text p (p + len value) = value.
Proof.
  intros (pre & post & -> & <-). unfold slice.
  pose proof (len_nonneg pre). pose proof (len_nonneg value). pose proof (len_nonneg post).
  rewrite !clip_in_range by (rewrite !len_app; lia).
  unfold len. rewrite <- Nat2Z.inj_add, !Nat2Z.id.
  rewrite skipn_app, skipn_all, Nat.sub_diag. simpl.
  replace (length pre + length value - length pre)%nat with (length value) by lia.
  rewrite firstn_app, firstn_all, Nat.sub_diag. simpl. apply app_nil_r.
Qed.

(** ** The sort *)

Lemma insert_desc_perm (x : Span) (l : list Span) :
  Permutation (insert_desc x l) (x :: l).
Proof.
  induction l as [|y l IH]; simpl; [reflexivity|].
  destruct (sp_start y <=? sp_start x); [reflexivity|].
  rewrite IH. apply perm_swap.
Qed.

Lemma sort_desc_perm (l : list Span) : Permutation (sort_desc l) l.
Proof.
  induction l as [|x l IH]; simpl; [reflexivity|].
  rewrite insert_desc_perm. now constructor.
Qed.

Lemma insert_desc_sorted (x : Span) (l : list Span) :
  StronglySorted starts_not_before l ->
  StronglySorted starts_not_before (insert_desc x l).
Proof.
  induction 1 as [|y l Hl IH Hy]; simpl.
  - constructor; constructor.
  - destruct (Z.leb_spec (sp_start y) (sp_start x)) as [Hle | Hgt].
    + constructor; [constructor; assumption|].
      constructor; [exact Hle|].
      eapply Forall_impl; [|exact Hy]. unfold starts_not_before. intros; lia.
    + constructor; [exact IH|].
      apply (Permutation_Forall (x := x :: l)).
      * symmetry. apply insert_desc_perm.
      * constructor; [unfold starts_not_before; lia | exact Hy].
Qed.

Lemma sort_desc_sorted (l : list Span) : StronglySorted starts_not_before (sort_desc l).
Proof.
  induction l as [|x l IH]; simpl; [constructor | now apply insert_desc_sorted].
Qed.

Lemma apart_sym (a b : Span) : apart a b -> apart b a.
Proof. unfold apart; tauto. Qed.

Lemma insert_desc_apart (x : Span) (l : list Span) :
  ForallOrdPairs apart l -> Forall (apart x) l ->
  ForallOrdPairs apart (insert_desc x l).
Proof.
  induction 1 as [|y l Hy Hl IH]; intros Hx; simpl.
  - constructor; constructor.
  - inversion Hx; subst.
    destruct (sp_start y <=? sp_start x).
    + constructor; [exact Hx | constructor; assumption].
    + constructor; [|apply IH; assumption].
      apply (Permutation_Forall (x := x :: l)).
      * symmetry. apply insert_desc_perm.
      * constructor; [now apply apart_sym | exact Hy].
Qed.

Lemma sort_desc_apart (l : list Span) :
  ForallOrdPairs apart l -> ForallOrdPairs apart (sort_desc l).
Proof.
  induction 1 as [|x l Hx Hl IH]; simpl; [constructor|].
  apply insert_desc_apart; [exact IH|].
  apply (Permutation_Forall (x := l)); [symmetry; apply sort_desc_perm | exact Hx].
Qed.

(** Sorted by descending start, ranges that are apart and not empty go
    down as a chain. *)
Lemma sorted_apart_chain (text : str) (d : list Span) :
  StronglySorted starts_not_before d ->
  ForallOrdPairs apart d ->
  Forall (span_wf text) d ->
  Forall (fun sp => sp_value sp <> []) d ->
  forall c, Forall (fun sp => sp_end sp <= c) d -> chain_below c d.
Proof.
  induction 1 as [|x d Hd IH Hx]; intros Hap Hwf Hne c Hc; simpl; [exact I|].
  inversion Hap; subst. inversion Hwf as [|? ? (Ho & He & _) Hwf']; subst.
  inversion Hne as [|? ? Hnx Hne']; subst. inversion Hc; subst.
  apply occurs_at_bounds in Ho. pose proof (len_nonneg (sp_value x)).
  repeat split; try lia.
  apply IH; auto.
  rewrite Forall_forall in *. intros y Hy.
  specialize (Hx y Hy). unfold starts_not_before in Hx.
  match goal with H : forall z, In z d -> apart x z |- _ => specialize (H y Hy) as Hxy end.
  destruct (Hwf' y Hy) as (_ & Hey & _).
  assert (0 < len (sp_value y)).
  { specialize (Hne' y Hy). destruct (sp_value y); [congruence | unfold len; simpl; lia]. }
  assert (0 < len (sp_value x)).
  { destruct (sp_value x); [congruence | unfold len; simpl; lia]. }
  unfold apart in Hxy. lia.
Qed.

(** A list has one arrangement by strictly ascending start at most. *)
Lemma ascending_unique (l1 : list Span) : forall l2,
  StronglySorted starts_before l1 -> StronglySorted starts_before l2 ->
  Permutation l1 l2 -> l1 = l2.
Proof.
  induction l1 as [|a l1 IH]; intros l2 H1 H2 Hp.
  - apply Permutation_nil in Hp. now subst.
  - destruct l2 as [|b l2]; [symmetry in Hp; apply Permutation_nil in Hp; discriminate|].
    inversion H1 as [|? ? H1' Ha]; subst. inversion H2 as [|? ? H2' Hb]; subst.
    assert (Hab : a = b).
    { assert (Hin : In a (b :: l2)) by (eapply Permutation_in; [exact Hp | now left]).
      assert (Hin' : In b (a :: l1)) by (eapply Permutation_in; [symmetry; exact Hp | now left]).
      destruct Hin as [-> | Hin]; [reflexivity|].
      destruct Hin' as [-> | Hin']; [reflexivity|].
      rewrite Forall_forall in Ha, Hb.
      specialize (Ha b Hin'). specialize (Hb a Hin). unfold starts_before in *. lia. }
    subst b. f_equal. apply IH; auto. eapply Permutation_cons_inv; exact Hp.
Qed.

Lemma chain_rev_ascending (d : list Span) : forall c,
  Forall (fun sp => sp_start sp < sp_end sp) d ->
  chain_below c d ->
  StronglySorted starts_before (rev d) /\ Forall (fun sp => sp_start sp < c) d.
Proof.
  induction d as [|x d IH]; intros c Hne Hch; simpl.
  - split; constructor.
  - destruct Hch as (Hx & Hc & Hch). inversion Hne as [|? ? Hnx Hne']; subst.
    destruct (IH (sp_start x) Hne' Hch) as [Hs Hlt].
    split.
    + clear IH. revert Hs. generalize (Forall_rev Hlt). generalize (rev d).
      induction l as [|y l IHl]; intros Hf Hs; simpl.
      * constructor; constructor.
      * inversion Hf; subst. inversion Hs; subst.
        constructor; [apply IHl; assumption|].
        apply Forall_app. split; [assumption|].
        constructor; [assumption | constructor].
    + constructor; [lia|]. eapply Forall_impl; [|exact Hlt]. simpl. intros; lia.
Qed.

(** ** Applying the markup *)

Arguments highlighted_value : simpl never.
Arguments slice : simpl never.
Arguments slice_to : simpl never.
Arguments slice_from : simpl never.

Section Markup.

Variable repr : pyval -> str.

Lemma annotate_snoc (text : str) (x : Span) (stop : Z) : forall asc cur,
  annotate repr text cur (asc ++ [x]) stop =
  annotate repr text cur asc (sp_start x) ++ highlighted_value repr x ++
  slice text (sp_end x) stop.
Proof.
  induction asc as [|y asc IH]; intros cur; cbn [annotate app]; [reflexivity|].
  rewrite IH.
  generalize (highlighted_value repr x) (highlighted_value repr y); intros hx hy.
  now rewrite <- !app_assoc.
Qed.

(** Splicing down a chain leaves the text below the last splice as it was,
    so every splice finds its range where the text has it. *)
Lemma splice_chain (text : str) (d : list Span) : forall c suffix,
  c <= len text -> chain_below c d ->
  fold_left (splice repr) d (slice_to text c ++ suffix) =
  annotate repr text 0 (rev d) c ++ suffix.
Proof.
  induction d as [|x d IH]; intros c suffix Hc Hch; simpl.
  - destruct (Z.lt_ge_cases c 0) as [Hneg | Hpos].
    + unfold slice, slice_to, clip.
      replace (c <? 0) with true by (symmetry; apply Z.ltb_lt; lia).
      simpl. rewrite Z.min_l by apply len_nonneg. simpl.
      now rewrite Nat.sub_0_r.
    + now rewrite slice_from_0 by lia.
  - destruct Hch as (Hx & Hxc & Hch).
    unfold splice at 2.
    rewrite slice_to_of_prefix, slice_from_of_prefix by lia.
    rewrite IH by (auto; lia).
    rewrite annotate_snoc.
    generalize (highlighted_value repr x); intros hx.
    now rewrite <- !app_assoc.
Qed.

Lemma apply_highlighting_chain (text : str) (d : list Span) :
  chain_below (len text) d ->
  apply_highlighting repr text d = reference_annotation repr text (rev d).
Proof.
  intros Hch. unfold apply_highlighting, reference_annotation.
  rewrite <- (app_nil_r text) at 1. rewrite <- (slice_to_all text) at 1.
  rewrite splice_chain by (auto; lia). apply app_nil_r.
Qed.

(** The sorted spans, when none of them is empty, form a chain, and their
    reverse is the one arrangement by ascending start. *)
Lemma sort_desc_chain (text : str) (spans : list Span) :
  accepted_ok text spans ->
  Forall (fun sp => sp_value sp <> []) spans ->
  chain_below (len text) (sort_desc spans) /\
  StronglySorted starts_before (rev (sort_desc spans)).
Proof.
  intros [Hwf Hap] Hne.
  assert (Hwf' : Forall (span_wf text) (sort_desc spans))
    by (eapply Permutation_Forall; [symmetry; apply sort_desc_perm | exact Hwf]).
  assert (Hne' : Forall (fun sp => sp_value sp <> []) (sort_desc spans))
    by (eapply Permutation_Forall; [symmetry; apply sort_desc_perm | exact Hne]).
  assert (Hch : chain_below (len text) (sort_desc spans)).
  { apply (sorted_apart_chain text); auto.
    - apply sort_desc_sorted.
    - now apply sort_desc_apart.
    - eapply Forall_impl; [|exact Hwf']. intros sp (Ho & He & _).
      apply occurs_at_bounds in Ho. lia. }
  split; [exact Hch|].
  eapply chain_rev_ascending; [|exact Hch].
  rewrite Forall_forall in *. intros sp Hsp.
  destruct (Hwf' sp Hsp) as (_ & He & _). specialize (Hne' sp Hsp).
  destruct (sp_value sp); [congruence | unfold len in He; simpl in He; lia].
Qed.

(** When no accepted span is empty, the sequential splicing is the
    reference annotation: for the arrangement [ascending] of the accepted
    spans by ascending start, the result is the text with each span's value
    wrapped where it occurs and everything between the spans as it was. *)
Theorem highlight_refines_reference (text : str) (phi_instances : list pyval)
  (spans ascending : list Span) :
  collect repr text phi_instances = Ret spans ->
  Forall (fun sp => sp_value sp <> []) spans ->
  Permutation ascending spans ->
  StronglySorted starts_before ascending ->
  highlight_phi_instances repr text (PList phi_instances)
  = Ret (reference_annotation repr text ascending)
  /\ Forall (fun sp => slice text (sp_start sp) (sp_end sp) = sp_value sp) ascending.
Proof.
  intros Hc Hne Hperm Hasc.
  pose proof (collect_ok repr text _ _ Hc) as Hok.
  destruct (sort_desc_chain text spans Hok Hne) as [Hch Hs].
  assert (Easc : ascending = rev (sort_desc spans)).
  { apply ascending_unique; auto.
    rewrite Hperm, <- Permutation_rev. symmetry. apply sort_desc_perm. }
  split.
  - destruct phi_instances as [|i rest].
    + injection Hc as <-. subst ascending. simpl.
      unfold reference_annotation. simpl.
      rewrite slice_from_0 by (pose proof (len_nonneg text); lia).
      now rewrite slice_to_all.
    + unfold highlight_phi_instances. simpl truthy. simpl is_list. simpl orb.
      cbv iota. rewrite Hc. simpl bind. rewrite Easc.
      now rewrite apply_highlighting_chain.
  - destruct Hok as [Hwf _].
    apply (Permutation_Forall (x := spans)); [symmetry; exact Hperm|].
    eapply Forall_impl; [|exact Hwf]. intros sp (Ho & He & _).
    rewrite He. now apply slice_at_occurrence.
Qed.

End Markup.

(** ** The router *)

Lemma str_eqb_eq (a b : str) : str_eqb a b = true <-> a = b.
Proof.
  revert b; induction a as [|x a IH]; intros [|y b]; simpl;
    try (split; [discriminate | discriminate]); [tauto|].
  rewrite andb_true_iff, N.eqb_eq, IH. split.
  - intros [-> ->]; reflexivity.
  - intros H; injection H as -> ->; auto.
Qed.

Lemma str_eqb_neq (a b : str) : a <> b -> str_eqb a b = false.
Proof.
  intros H. destruct (str_eqb a b) eqn:E; [|reflexivity].
  apply str_eqb_eq in E. contradiction.
Qed.

(** C5: the router sends "png" to the OCR extractor, "pdf" to the PDF
    extractor and "csv" to the CSV extractor, and raises on every other tag
    (the [ValueError] "Invalid file type"), returning no extractor. *)
Theorem input_router_by_tag :
  forall doc_state : docState,
    (ds_file_ext doc_state = py "png" -> input_router doc_state = Ret OCR) /\
    (ds_file_ext doc_state = py "pdf" -> input_router doc_state = Ret PDF_Parser) /\
    (ds_file_ext doc_state = py "csv" -> input_router doc_state = Ret CSV_Parser) /\
    (ds_file_ext doc_state <> py "png" -> ds_file_ext doc_state <> py "pdf" ->
     ds_file_ext doc_state <> py "csv" ->
     input_router doc_state = Raise (ValueError (py "Invalid file type"))).
Proof.
  intros st. unfold input_router. repeat split.
  - intros ->. reflexivity.
  - intros ->. reflexivity.
  - intros ->. reflexivity.
  - intros H1 H2 H3. now rewrite !str_eqb_neq.
Qed.

Lemma input_router_by_tag_witness :
  input_router (mkDocState [] (py "pdf") [] [] []) = Ret PDF_Parser /\
  input_router (mkDocState [] (py "docx") [] [] []) = Raise (ValueError (py "Invalid file type")).
Proof.
  split.
  - apply (input_router_by_tag (mkDocState [] (py "pdf") [] [] [])). reflexivity.
  - apply (input_router_by_tag (mkDocState [] (py "docx") [] [] [])); discriminate.
Defined.

(** ** The exclusion clause *)

Lemma fold_left_append {A : Type} (f : A -> str) (l : list A) : forall text,
  fold_left (fun text item => text ++ f item) l text = text ++ concat (map f l).
Proof.
  induction l as [|x l IH]; intros text; simpl.
  - now rewrite app_nil_r.
  - now rewrite IH, app_assoc.
Qed.

(** C7: the clause is empty for the empty filter; for a filter that ends
    with [c] it names every category before [c] followed by a comma, puts
    "and" before [c] when there is one such category or more, and ends with
    a period. *)
Theorem get_exclusion_clause :
  get_exclusion [] = [] /\
  forall (before : list str) (c : str),
    get_exclusion (before ++ [c]) =
    py " except PHI instances of the type" ++
    concat (map (fun a => py " " ++ a ++ py ",") before) ++
    match before with [] => [] | _ :: _ => py " and" end ++
    py " " ++ c ++ py ".".
Proof.
  split; [reflexivity|]. intros before c. unfold get_exclusion.
  destruct (before ++ [c]) as [|x l] eqn:E; [destruct before; discriminate|].
  rewrite <- E. rewrite removelast_last, last_last.
  rewrite (fold_left_append (fun item => py " " ++ item ++ py ",")).
  unfold len. rewrite length_app. simpl length.
  destruct before as [|a before].
  - simpl. reflexivity.
  - replace (1 <? Z.of_nat (length (a :: before) + 1)) with true
      by (symmetry; apply Z.ltb_lt; simpl; lia).
    cbn [app]. rewrite <- !app_assoc. reflexivity.
Qed.

Example get_exclusion_three :
  get_exclusion [py "Names"; py "Fax numbers"; py "Email addresses"] =
  py " except PHI instances of the type Names, Fax numbers, and Email addresses.".
Proof. reflexivity. Qed.

Example get_exclusion_one :
  get_exclusion [py "Names"] = py " except PHI instances of the type Names.".
Proof. reflexivity. Qed.

(** ** The tabular extractor *)

Section Tabular.

Variable repr : pyval -> str.

Lemma combine_by_index {A B C : Type} (f : A * B -> C) (da : A) (db : B) :
  forall (la : list A) (lb : list B), length la = length lb ->
    map f (combine la lb) =
    map (fun j => f (nth j la da, nth j lb db)) (seq 0 (length lb)).
Proof.
  induction la as [|a la IH]; intros [|b lb] Hl; simpl in *; try discriminate; auto.
  f_equal. rewrite <- seq_shift, map_map. apply IH. lia.
Qed.

Lemma csv_lines_append (l : list (pyval * str)) : forall text,
  fold_left (fun text '(item, col) => text ++ col ++ py ": " ++ str_of repr item ++ [newline])
    l text =
  text ++ concat (map (fun p => snd p ++ py ": " ++ str_of repr (fst p) ++ [newline]) l).
Proof.
  induction l as [|[item col] l IH]; intros text; cbn [fold_left map concat fst snd].
  - now rewrite app_nil_r.
  - rewrite IH. now rewrite <- !app_assoc.
Qed.

Lemma csv_row_block (columns : list str) (text : str) (row : pyval * list pyval) :
  length (snd row) = length columns ->
  csv_row repr columns text row =
  text ++ block repr columns (str_of repr (fst row)) (snd row).
Proof.
  intros Hl. unfold csv_row, block.
  rewrite csv_lines_append.
  rewrite (combine_by_index _ PNone [] (snd row) columns Hl).
  cbn [fst snd]. rewrite <- !app_assoc. reflexivity.
Qed.

Lemma csv_text_blocks (columns : list str) (rows : list (pyval * list pyval)) :
  Forall (fun row => length (snd row) = length columns) rows ->
  forall text,
    fold_left (csv_row repr columns) rows text =
    text ++ concat (map (fun row => block repr columns (str_of repr (fst row)) (snd row)) rows).
Proof.
  induction 1 as [|row rows Hrow _ IH]; intros text; simpl.
  - now rewrite app_nil_r.
  - rewrite IH, csv_row_block by exact Hrow. now rewrite <- app_assoc.
Qed.

(** C8, as the code has it: for a table of N records the text is N blocks
    in row order, and the block of record [i] is a line stating the row
    label of the record, one "column: value" line per column in column
    order, and a blank line.  When the table has the default row labels the
    label of record [i] is [i], counted from 0. *)
Theorem csv_text_layout :
  forall df : DataFrame,
    rectangular df ->
    tabular_layout repr (fun _ label => str_of repr label) df (csv_text repr df) /\
    (default_index df ->
     tabular_layout repr (fun i _ => str_of_int (Z.of_nat i)) df (csv_text repr df)).
Proof.
  intros df Hrect.
  assert (Hl : tabular_layout repr (fun _ label => str_of repr label) df (csv_text repr df)).
  { exists (map (fun row => block repr (df_columns df) (str_of repr (fst row)) (snd row))
             (df_iterrows df)).
    split; [apply length_map|]. split.
    - unfold csv_text. now rewrite csv_text_blocks.
    - intros i label values Hi. rewrite nth_error_map, Hi. reflexivity. }
  split; [exact Hl|].
  intros Hdef. destruct Hl as (blocks & Hlen & Hout & Hnth).
  exists blocks. split; [exact Hlen|]. split; [exact Hout|].
  intros i label values Hi. rewrite (Hnth i label values Hi).
  now rewrite (Hdef i label values Hi).
Qed.

End Tabular.

(** The claim read with the ordinal on the index line fails on it: the
    index lines state the row labels 4 and 8, not 0 and 1. *)
Lemma ordinal_index_line_refuted :
  ~ exists repr : pyval -> str,
      tabular_layout repr (fun i _ => str_of_int (Z.of_nat i)) labelled_table
        (csv_text repr labelled_table).
Proof.
  intros (repr & blocks & Hlen & Hout & Hnth).
  pose proof (Hnth 0%nat _ _ eq_refl) as H0.
  pose proof (Hnth 1%nat _ _ eq_refl) as H1.
  destruct blocks as [|b0 [|b1 [|b2 blocks]]]; try discriminate.
  simpl in H0, H1. injection H0 as ->. injection H1 as ->.
  vm_compute in Hout. discriminate.
Qed.

Lemma csv_text_layout_witness :
  tabular_layout (fun _ => []) (fun _ label => str_of (fun _ => []) label) labelled_table
    (csv_text (fun _ => []) labelled_table) /\
  (default_index labelled_table ->
   tabular_layout (fun _ => []) (fun i _ => str_of_int (Z.of_nat i)) labelled_table
     (csv_text (fun _ => []) labelled_table)).
Proof.
  apply (csv_text_layout (fun _ => []) labelled_table).
  repeat constructor.
Defined.

(** ** Stripping *)

Lemma lstrip_decompose (s : str) :
  exists w, s = w ++ lstrip s /\ forallb isspace w = true.
Proof.
  induction s as [|c s (w & Hs & Hw)]; simpl.
  - exists []. auto.
  - destruct (isspace c) eqn:E.
    + exists (c :: w). simpl. rewrite E, Hw. split; [now f_equal | reflexivity].
    + exists []. auto.
Qed.

Lemma lstrip_fixed (c : char) (s : str) : isspace c = false -> lstrip (c :: s) = c :: s.
Proof. intros H. simpl. now rewrite H. Qed.

Lemma lstrip_head (s : str) :
  lstrip s = [] \/ exists c t, lstrip s = c :: t /\ isspace c = false.
Proof.
  induction s as [|c s IH]; simpl; [now left|].
  destruct (isspace c) eqn:E; [exact IH | right; eauto].
Qed.

Lemma lstrip_idempotent (s : str) : lstrip (lstrip s) = lstrip s.
Proof.
  destruct (lstrip_head s) as [-> | (c & t & -> & Hc)]; [reflexivity|].
  now apply lstrip_fixed.
Qed.

Lemma lstrip_snoc_nonspace (u : str) (c : char) :
  isspace c = false -> lstrip (u ++ [c]) = lstrip u ++ [c].
Proof.
  intros Hc. induction u as [|x u IH]; simpl.
  - now rewrite Hc.
  - destruct (isspace x); [exact IH | reflexivity].
Qed.

Lemma rstrip_cons_nonspace (c : char) (t : str) :
  isspace c = false -> rstrip (c :: t) = c :: rstrip t.
Proof.
  intros Hc. unfold rstrip. simpl rev.
  rewrite lstrip_snoc_nonspace by exact Hc.
  now rewrite rev_app_distr.
Qed.

Lemma forallb_rev {A : Type} (f : A -> bool) (l : list A) :
  forallb f l = true -> forallb f (rev l) = true.
Proof.
  rewrite !forallb_forall. intros H x Hx. apply H. now apply in_rev.
Qed.

(** A string is whitespace, its stripped form, whitespace. *)
Lemma strip_decompose (s : str) :
  exists w1 w2, s = w1 ++ strip s ++ w2 /\
                forallb isspace w1 = true /\ forallb isspace w2 = true.
Proof.
  destruct (lstrip_decompose s) as (w1 & Hs & Hw1).
  destruct (lstrip_decompose (rev (lstrip s))) as (w & Hr & Hw).
  exists w1, (rev w). repeat split; auto using forallb_rev.
  unfold strip, rstrip. rewrite <- rev_app_distr, <- Hr, rev_involutive. exact Hs.
Qed.

Lemma strip_idempotent (s : str) : strip (strip s) = strip s.
Proof.
  assert (Hl : lstrip (strip s) = strip s).
  { unfold strip. destruct (lstrip_head s) as [-> | (c & t & -> & Hc)]; [reflexivity|].
    rewrite rstrip_cons_nonspace by exact Hc. now apply lstrip_fixed. }
  unfold strip at 1. rewrite Hl. unfold strip, rstrip.
  now rewrite rev_involutive, lstrip_idempotent.
Qed.

(** ** [str.rfind] *)

Lemma rfind_at_spec (sub : str) : forall (s : str) (i : Z), 0 <= i ->
  (rfind_at s sub i = -1 /\
   forall k, (k <= length s)%nat -> startswith (skipn k s) sub = false)
  \/
  (exists k, rfind_at s sub i = i + Z.of_nat k /\ (k <= length s)%nat /\
     startswith (skipn k s) sub = true /\
     forall j, (k < j <= length s)%nat -> startswith (skipn j s) sub = false).
Proof.
  induction s as [|c s IH]; intros i Hi; simpl rfind_at.
  - destruct (startswith [] sub) eqn:E.
    + right. exists 0%nat. simpl. repeat split; auto; try lia.
    + left. split; [reflexivity|]. intros k Hk. simpl in Hk.
      replace k with 0%nat by lia. exact E.
  - destruct (IH (i + 1) ltac:(lia)) as [[Hr Hall] | (k & Hr & Hk & Hs & Hgt)].
    + rewrite Hr. simpl. destruct (startswith (c :: s) sub) eqn:E.
      * right. exists 0%nat. simpl. repeat split; auto; try lia.
        intros [|j] Hj; [lia|]. simpl. apply Hall. lia.
      * left. split; [reflexivity|]. intros [|k] Hk; [exact E|].
        simpl. apply Hall. simpl in Hk. lia.
    + rewrite Hr. replace (i + 1 + Z.of_nat k =? -1) with false
        by (symmetry; apply Z.eqb_neq; lia).
      right. exists (S k). simpl. repeat split; auto; try lia.
      intros [|j] Hj; [lia|]. simpl. apply Hgt. lia.
Qed.

(** [rfind] returns the rightmost occurrence, or -1 when there is none. *)
Lemma rfind_spec (text value : str) :
  (rfind text value = -1 /\ forall p, ~ occurs_at text value p)
  \/
  (occurs_at text value (rfind text value) /\
   forall p, rfind text value < p -> ~ occurs_at text value p).
Proof.
  unfold rfind.
  destruct (rfind_at_spec value text 0 ltac:(lia)) as [[Hr Hall] | (k & Hr & Hk & Hs & Hgt)].
  - left. split; [exact Hr|]. intros p Ho.
    apply occurs_at_skipn in Ho as [Hb Ho].
    rewrite Hall in Ho; [discriminate | unfold len in Hb; lia].
  - right. rewrite Hr. split.
    + apply occurs_at_skipn. unfold len. split; [lia|].
      now replace (Z.to_nat (0 + Z.of_nat k)) with k by lia.
    + intros p Hp Ho. apply occurs_at_skipn in Ho as [Hb Ho].
      rewrite Hgt in Ho; [discriminate | unfold len in Hb; lia].
Qed.

(** ** Brackets in a padded text *)

Lemma occurs_char_nth (s : str) (ch : char) (p : Z) :
  occurs_at s [ch] p <-> 0 <= p /\ nth_error s (Z.to_nat p) = Some ch.
Proof.
  split.
  - intros (pre & post & -> & <-). split; [apply len_nonneg|].
    unfold len. rewrite Nat2Z.id, nth_error_app2, Nat.sub_diag by lia. reflexivity.
  - intros [Hp Hn]. apply nth_error_split in Hn as (l1 & l2 & -> & Hl).
    exists l1, l2. split; [reflexivity | unfold len; lia].
Qed.

Lemma all_space_no_nonspace (w : str) (ch : char) (n : nat) :
  forallb isspace w = true -> isspace ch = false -> nth_error w n <> Some ch.
Proof.
  intros Hw Hch Hn. apply nth_error_In in Hn.
  rewrite forallb_forall in Hw. rewrite (Hw ch Hn) in Hch. discriminate.
Qed.

Section Padded.

Variables (w1 m w2 : str) (ch : char).
Hypothesis Hw1 : forallb isspace w1 = true.
Hypothesis Hw2 : forallb isspace w2 = true.
Hypothesis Hch : isspace ch = false.

Lemma occurs_char_padded (p : Z) :
  occurs_at (w1 ++ m ++ w2) [ch] p <->
  exists q, p = len w1 + q /\ occurs_at m [ch] q.
Proof.
  split.
  - intros Ho. apply occurs_char_nth in Ho as [Hp Hn].
    destruct (Nat.lt_ge_cases (Z.to_nat p) (length w1)) as [Hlt | Hge].
    + rewrite nth_error_app1 in Hn by exact Hlt.
      now apply all_space_no_nonspace in Hn.
    + rewrite nth_error_app2 in Hn by exact Hge.
      destruct (Nat.lt_ge_cases (Z.to_nat p - length w1) (length m)) as [Hlt' | Hge'].
      * rewrite nth_error_app1 in Hn by exact Hlt'.
        exists (p - len w1). split; [lia|]. apply occurs_char_nth.
        unfold len. split; [lia|].
        now replace (Z.to_nat (p - Z.of_nat (length w1)))
          with (Z.to_nat p - length w1)%nat by lia.
      * rewrite nth_error_app2 in Hn by exact Hge'.
        now apply all_space_no_nonspace in Hn.
  - intros (q & -> & (pre & post & -> & <-)).
    exists (w1 ++ pre), (post ++ w2). split.
    + now rewrite <- !app_assoc.
    + apply len_app.
Qed.

Lemma find_padded :
  (find (w1 ++ m ++ w2) [ch] 0 = -1 /\ find m [ch] 0 = -1)
  \/
  (0 <= find m [ch] 0 < len m /\
   find (w1 ++ m ++ w2) [ch] 0 = len w1 + find m [ch] 0).
Proof.
  pose proof (len_nonneg w1) as Hl.
  destruct (find_spec (w1 ++ m ++ w2) [ch] 0 ltac:(lia)) as [[Ha Hnone] | (Ha & Hoa & Hla)];
    destruct (find_spec m [ch] 0 ltac:(lia)) as [[Hb Hnone'] | (Hb & Hob & Hlb)].
  - now left.
  - exfalso. apply (Hnone (len w1 + find m [ch] 0)); [lia|].
    apply occurs_char_padded. eauto.
  - exfalso. apply occurs_char_padded in Hoa as (q & _ & Hq).
    apply (Hnone' q); [|exact Hq]. apply occurs_at_bounds in Hq. lia.
  - right. pose proof (occurs_at_bounds _ _ _ Hob) as Hbb.
    change (len [ch]) with 1 in Hbb. split; [lia|].
    pose proof Hoa as Hoa'. apply occurs_char_padded in Hoa' as (q & Hq & Hoq).
    pose proof (occurs_at_bounds _ _ _ Hoq) as Hqb.
    destruct (Z.lt_trichotomy q (find m [ch] 0)) as [Hlt | [Heq | Hgt]].
    + exfalso. apply (Hlb q); [lia | exact Hoq].
    + lia.
    + exfalso. apply (Hla (len w1 + find m [ch] 0)); [lia|].
      apply occurs_char_padded. eauto.
Qed.

Lemma rfind_padded :
  (rfind (w1 ++ m ++ w2) [ch] = -1 /\ rfind m [ch] = -1)
  \/
  (0 <= rfind m [ch] < len m /\
   rfind (w1 ++ m ++ w2) [ch] = len w1 + rfind m [ch]).
Proof.
  pose proof (len_nonneg w1) as Hl.
  destruct (rfind_spec (w1 ++ m ++ w2) [ch]) as [[Ha Hnone] | (Hoa & Hla)];
    destruct (rfind_spec m [ch]) as [[Hb Hnone'] | (Hob & Hlb)].
  - now left.
  - exfalso. apply (Hnone (len w1 + rfind m [ch])).
    apply occurs_char_padded. eauto.
  - exfalso. apply occurs_char_padded in Hoa as (q & _ & Hq).
    now apply (Hnone' q).
  - right. pose proof (occurs_at_bounds _ _ _ Hob) as Hbb.
    change (len [ch]) with 1 in Hbb. split; [lia|].
    pose proof Hoa as Hoa'. apply occurs_char_padded in Hoa' as (q & Hq & Hoq).
    destruct (Z.lt_trichotomy q (rfind m [ch])) as [Hlt | [Heq | Hgt]].
    + exfalso. apply (Hla (len w1 + rfind m [ch])); [lia|].
      apply occurs_char_padded. eauto.
    + lia.
    + exfalso. apply (Hlb q); [lia | exact Hoq].
Qed.

Lemma slice_padded (a b : Z) :
  0 <= a <= b -> b <= len m ->
  slice (w1 ++ m ++ w2) (len w1 + a) (len w1 + b) = slice m a b.
Proof.
  intros Ha Hb. unfold slice.
  pose proof (len_nonneg w1). pose proof (len_nonneg w2).
  rewrite !clip_in_range by (rewrite ?len_app; lia).
  unfold len in *.
  replace (Z.to_nat (Z.of_nat (length w1) + b) - Z.to_nat (Z.of_nat (length w1) + a))%nat
    with (Z.to_nat b - Z.to_nat a)%nat by lia.
  replace (Z.to_nat (Z.of_nat (length w1) + a)) with (length w1 + Z.to_nat a)%nat by lia.
  rewrite skipn_app.
  replace (length w1 + Z.to_nat a - length w1)%nat with (Z.to_nat a) by lia.
  rewrite skipn_all2 by lia. simpl.
  rewrite skipn_app, firstn_app, length_skipn.
  replace (Z.to_nat b - Z.to_nat a - (length m - Z.to_nat a))%nat with 0%nat by lia.
  rewrite firstn_O. apply app_nil_r.
Qed.

End Padded.

(** Stripping the body first does not change the text handed to
    [json.loads]. *)
Lemma array_text_strip (content : str) :
  array_text (strip content) = array_text content.
Proof.
  unfold array_text. rewrite strip_idempotent.
  destruct (startswith (strip content) (py "[")) eqn:E; [reflexivity|].
  destruct (strip_decompose content) as (w1 & w2 & Hc & Hw1 & Hw2).
  set (m := strip content) in *. rewrite Hc. cbv zeta.
  change (py "[") with [91%N]. change (py "]") with [93%N].
  pose proof (len_nonneg w1) as Hl.
  destruct (find_padded w1 m w2 91%N Hw1 Hw2 eq_refl) as [[Ha Ha'] | [Ha' Ha]];
    rewrite Ha; [rewrite Ha'; reflexivity|].
  destruct (rfind_padded w1 m w2 93%N Hw1 Hw2 eq_refl) as [[Hb Hb'] | [Hb' Hb]];
    rewrite Hb.
  - rewrite Hb'.
    replace (len w1 + find m [91%N] 0 >=? 0) with true by (symmetry; apply Z.geb_le; lia).
    replace (find m [91%N] 0 >=? 0) with true by (symmetry; apply Z.geb_le; lia).
    replace (-1 + 1 >? len w1 + find m [91%N] 0) with false
      by (symmetry; rewrite Z.gtb_ltb; apply Z.ltb_ge; lia).
    replace (-1 + 1 >? find m [91%N] 0) with false
      by (symmetry; rewrite Z.gtb_ltb; apply Z.ltb_ge; lia).
    reflexivity.
  - replace (len w1 + find m [91%N] 0 >=? 0) with true by (symmetry; apply Z.geb_le; lia).
    replace (find m [91%N] 0 >=? 0) with true by (symmetry; apply Z.geb_le; lia).
    simpl andb.
    destruct (Z.lt_ge_cases (find m [91%N] 0) (rfind m [93%N] + 1)) as [Hlt | Hge].
    + replace (len w1 + rfind m [93%N] + 1 >? len w1 + find m [91%N] 0) with true
        by (symmetry; rewrite Z.gtb_ltb; apply Z.ltb_lt; lia).
      replace (rfind m [93%N] + 1 >? find m [91%N] 0) with true
        by (symmetry; rewrite Z.gtb_ltb; apply Z.ltb_lt; lia).
      f_equal. symmetry.
      replace (len w1 + rfind m [93%N] + 1) with (len w1 + (rfind m [93%N] + 1)) by lia.
      apply slice_padded; auto; lia.
    + replace (len w1 + rfind m [93%N] + 1 >? len w1 + find m [91%N] 0) with false
        by (symmetry; rewrite Z.gtb_ltb; apply Z.ltb_ge; lia).
      replace (rfind m [93%N] + 1 >? find m [91%N] 0) with false
        by (symmetry; rewrite Z.gtb_ltb; apply Z.ltb_ge; lia).
      reflexivity.
Qed.

(** ** The two stages *)

Section Stages.

Variable repr : pyval -> str.
Variable llm_invoke : str -> str.
Variable json_loads : str -> option pyval.

(** What Detection appends, by the text handed to [json.loads]. *)
Lemma phi_identifier_appends (doc_state : docState) :
  phi_identifier llm_invoke json_loads doc_state =
  append_instances doc_state
    match array_text (llm_invoke (identifier_prompt doc_state)) with
    | Some t => match json_loads t with Some v => v | None => PList [] end
    | None => PList []
    end.
Proof.
  unfold phi_identifier, array_text.
  set (content := llm_invoke (identifier_prompt doc_state)).
  destruct (startswith (strip content) (py "[")).
  - destruct (json_loads (strip content)); reflexivity.
  - cbv zeta.
    destruct ((find content (py "[") 0 >=? 0) &&
              (rfind content (py "]") + 1 >? find content (py "[") 0)).
    + destruct (json_loads _); reflexivity.
    + reflexivity.
Qed.

(** What Classification appends, likewise. *)
Lemma phi_rationale_appends (doc_state : docState) (prior : pyval) :
  last_entry (ds_instances doc_state) = Ret prior ->
  phi_rationale repr llm_invoke json_loads doc_state =
  Ret (append_instances doc_state
         match array_text (llm_invoke (rationale_prompt repr prior)) with
         | Some t => match json_loads t with Some v => v | None => prior end
         | None => prior
         end).
Proof.
  intros Hlast. unfold phi_rationale. rewrite Hlast. cbn [bind].
  rewrite <- (array_text_strip (llm_invoke (rationale_prompt repr prior))).
  set (content := strip (llm_invoke (rationale_prompt repr prior))).
  assert (Hid : strip content = content) by apply strip_idempotent.
  unfold array_text. rewrite Hid.
  destruct (startswith content (py "[")).
  - destruct (json_loads content); reflexivity.
  - cbv zeta.
    destruct ((find content (py "[") 0 >=? 0) &&
              (rfind content (py "]") + 1 >? find content (py "[") 0)).
    + destruct (json_loads _); reflexivity.
    + reflexivity.
Qed.

(** C1: on a response body that cannot be parsed into an array Detection
    appends the empty list, whatever the history holds, the empty history
    of a run included; Classification appends the entry before it; so the
    two fallbacks differ whenever that entry is not the empty list. *)
Theorem parse_fallbacks_are_asymmetric :
  forall doc_state : docState,
    (unparseable json_loads (llm_invoke (identifier_prompt doc_state)) ->
     phi_identifier llm_invoke json_loads doc_state =
     append_instances doc_state (PList []))
    /\
    (forall prior : pyval,
       last_entry (ds_instances doc_state) = Ret prior ->
       unparseable json_loads (llm_invoke (rationale_prompt repr prior)) ->
       phi_rationale repr llm_invoke json_loads doc_state =
       Ret (append_instances doc_state prior)
       /\
       (unparseable json_loads (llm_invoke (identifier_prompt doc_state)) ->
        prior <> PList [] ->
        phi_rationale repr llm_invoke json_loads doc_state <>
        Ret (phi_identifier llm_invoke json_loads doc_state))).
Proof.
  intros st.
  assert (Hd : unparseable json_loads (llm_invoke (identifier_prompt st)) ->
               phi_identifier llm_invoke json_loads st = append_instances st (PList [])).
  { intros Hu. rewrite phi_identifier_appends. unfold unparseable in Hu.
    destruct (array_text _); [rewrite Hu|]; reflexivity. }
  split; [exact Hd|].
  intros prior Hlast Hu2.
  assert (Hc : phi_rationale repr llm_invoke json_loads st = Ret (append_instances st prior)).
  { rewrite (phi_rationale_appends st prior Hlast). unfold unparseable in Hu2.
    destruct (array_text _); [rewrite Hu2|]; reflexivity. }
  split; [exact Hc|].
  intros Hu1 Hne. rewrite (Hd Hu1), Hc. intros H.
  injection H as H. apply app_inv_head in H. congruence.
Qed.

Variable image_to_string : list byte -> outcome str.
Variable pdf_page_texts : list byte -> outcome (list (option str)).
Variable read_csv : list byte -> outcome DataFrame.

Lemma extract_keeps_instances (doc_state with_text : docState) :
  extract repr image_to_string pdf_page_texts read_csv doc_state = Ret with_text ->
  ds_instances with_text = ds_instances doc_state.
Proof.
  unfold extract, ocr_tool, pdf_parser_tool, csv_parser_tool.
  destruct (input_router doc_state) as [[| |]| |]; simpl; try discriminate.
  - destruct (image_to_string _); simpl; try discriminate.
    intros H; injection H as <-; reflexivity.
  - destruct (pdf_page_texts _); simpl; try discriminate.
    intros H; injection H as <-; reflexivity.
  - destruct (read_csv _); simpl; try discriminate.
    intros H; injection H as <-; reflexivity.
Qed.

(** C6: the history is empty when the run starts and still empty when
    Detection starts; Detection leaves one entry and Classification two,
    whatever the service answers; either stage appends one entry to the
    entries it finds, which stay as they are. *)
Theorem findings_history_grows_by_one :
  forall (file_bytes : list byte) (file_ext : str) (exclude_filter : list str),
    ds_instances (initial_state file_bytes file_ext exclude_filter) = []
    /\
    (forall doc_state : docState, exists entry,
       ds_instances (phi_identifier llm_invoke json_loads doc_state) =
       ds_instances doc_state ++ [entry])
    /\
    (forall doc_state : docState, ds_instances doc_state <> [] ->
       exists entry after,
         phi_rationale repr llm_invoke json_loads doc_state = Ret after /\
         ds_instances after = ds_instances doc_state ++ [entry])
    /\
    (forall with_text : docState,
       extract repr image_to_string pdf_page_texts read_csv
         (initial_state file_bytes file_ext exclude_filter) = Ret with_text ->
       ds_instances with_text = [] /\
       exists detected classified final,
         ds_instances (phi_identifier llm_invoke json_loads with_text) = [detected] /\
         phi_rationale repr llm_invoke json_loads
           (phi_identifier llm_invoke json_loads with_text) = Ret final /\
         ds_instances final = [detected; classified] /\
         flow_graph_invoke repr llm_invoke json_loads image_to_string pdf_page_texts
           read_csv (initial_state file_bytes file_ext exclude_filter) = Ret final).
Proof.
  intros file_bytes file_ext exclude_filter.
  assert (Hd : forall st, exists entry,
             ds_instances (phi_identifier llm_invoke json_loads st) =
             ds_instances st ++ [entry]).
  { intros st. rewrite phi_identifier_appends. eexists. reflexivity. }
  assert (Hc : forall st, ds_instances st <> [] -> exists entry after,
             phi_rationale repr llm_invoke json_loads st = Ret after /\
             ds_instances after = ds_instances st ++ [entry]).
  { intros st Hne.
    assert (Hlast : exists prior, last_entry (ds_instances st) = Ret prior).
    { destruct (ds_instances st); [congruence | simpl; eauto]. }
    destruct Hlast as [prior Hlast].
    rewrite (phi_rationale_appends st prior Hlast). eexists. eexists.
    split; reflexivity. }
  split; [reflexivity|]. split; [exact Hd|]. split; [exact Hc|].
  intros with_text Hex.
  pose proof (extract_keeps_instances _ _ Hex) as Hkeep. simpl in Hkeep.
  split; [exact Hkeep|].
  destruct (Hd with_text) as [detected Hdet]. rewrite Hkeep in Hdet. simpl in Hdet.
  destruct (Hc (phi_identifier llm_invoke json_loads with_text)) as (classified & final & Hr & Hf).
  { rewrite Hdet. discriminate. }
  exists detected, classified, final. rewrite Hdet in Hf. simpl in Hf.
  repeat split; auto.
  unfold flow_graph_invoke. rewrite Hex. exact Hr.
Qed.

End Stages.

Lemma parse_fallbacks_are_asymmetric_witness :
  phi_identifier (fun _ => py "see [John Doe]") (fun _ => None)
    (mkDocState [] (py "png") (py "Patient John Doe") [] []) =
  mkDocState [] (py "png") (py "Patient John Doe") [PList []] []
  /\
  phi_identifier (fun _ => py "see [John Doe]") (fun _ => None) detected_state =
  append_instances detected_state (PList [])
  /\
  phi_rationale (fun _ => []) (fun _ => py "see [John Doe]") (fun _ => None) detected_state =
  Ret (append_instances detected_state
         (PList [PDict [(py "type", PStr (py "Names")); (py "value", PStr (py "John Doe"))]]))
  /\
  phi_rationale (fun _ => []) (fun _ => py "see [John Doe]") (fun _ => None) detected_state <>
  Ret (phi_identifier (fun _ => py "see [John Doe]") (fun _ => None) detected_state).
Proof.
  destruct (parse_fallbacks_are_asymmetric (fun _ => []) (fun _ => py "see [John Doe]")
              (fun _ => None) (mkDocState [] (py "png") (py "Patient John Doe") [] []))
    as (H0 & _).
  destruct (parse_fallbacks_are_asymmetric (fun _ => []) (fun _ => py "see [John Doe]")
              (fun _ => None) detected_state) as (H1 & H2).
  destruct (H2 (PList [PDict [(py "type", PStr (py "Names")); (py "value", PStr (py "John Doe"))]])
              eq_refl eq_refl) as (H3 & H4).
  split; [exact (H0 eq_refl)|].
  split; [exact (H1 eq_refl)|].
  split; [exact H3|].
  apply H4; [reflexivity | discriminate].
Defined.

Lemma findings_history_grows_by_one_witness :
  exists detected classified final,
    flow_graph_invoke (fun _ => []) (fun _ => py "[]") (fun _ => None)
      (fun _ => Ret (py "Patient John Doe")) (fun _ => Ret []) (fun _ => Raise TypeError)
      (initial_state [] (py "png") []) = Ret final /\
    ds_instances final = [detected; classified].
Proof.
  destruct (findings_history_grows_by_one (fun _ => []) (fun _ => py "[]") (fun _ => None)
              (fun _ => Ret (py "Patient John Doe")) (fun _ => Ret []) (fun _ => Raise TypeError)
              [] (py "png") []) as (_ & _ & _ & H).
  destruct (H (mkDocState [] (py "png") (py "Patient John Doe") [] []) eq_refl)
    as (_ & detected & classified & final & _ & _ & Hf & Hrun).
  exists detected, classified, final. split; assumption.
Defined.

(** ** The markup on an empty span *)

(** C4 fails on a whitespace-only value: in the text "Hello", for a finding
    of value " " followed by one of value "Hello", the empty span of the
    first is spliced in before the span of the second, which starts at the
    same offset; the second splice then cuts the markup of the first at the
    offsets of the text.  The result is the markup of "Hello", the tail of
    the other markup and the text once more, and it is not the reference
    annotation, in whichever order the two spans are taken. *)
Theorem whitespace_value_corrupts_markup :
  forall repr : pyval -> str,
    collect repr (py "Hello") [PDict blank_finding; PDict hello_finding]
    = Ret [blank_span; hello_span]
    /\
    highlight_phi_instances repr (py "Hello") (PList [PDict blank_finding; PDict hello_finding])
    = Ret (highlighted_value repr hello_span ++
           py " class=" ++ [dquote] ++ py "phi-highlight" ++ [dquote] ++
           py " title=" ++ [dquote] ++ py "PHI Type: Unknown" ++ [dquote] ++
           py "></span>Hello")
    /\
    highlight_phi_instances repr (py "Hello") (PList [PDict blank_finding; PDict hello_finding])
    <> Ret (reference_annotation repr (py "Hello") [blank_span; hello_span])
    /\
    highlight_phi_instances repr (py "Hello") (PList [PDict blank_finding; PDict hello_finding])
    <> Ret (reference_annotation repr (py "Hello") [hello_span; blank_span]).
Proof.
  intros repr. repeat split; try (vm_compute; reflexivity); vm_compute; discriminate.
Qed.

(** The same two findings in the other order are annotated as the
    reference has it. *)
Example hello_then_blank :
  forall repr : pyval -> str,
    highlight_phi_instances repr (py "Hello") (PList [PDict hello_finding; PDict blank_finding])
    = Ret (reference_annotation repr (py "Hello") [blank_span; hello_span]).
Proof. intros repr. vm_compute. reflexivity. Qed.

(** The example of the specification: the spans are at the offsets of the
    text, whatever offsets the findings claim. *)
Example resolve_john_doe :
  forall repr : pyval -> str,
    collect repr (py "Patient John Doe, SSN 123-45-6789, seen 2020-01-01.")
      [PDict [(py "value", PStr (py "John Doe")); (py "start", PInt 0); (py "end", PInt 3)];
       PDict [(py "value", PStr (py "123-45-6789"))]]
    = Ret [mkSpan 8 16 (py "John Doe") (PStr (py "Unknown"))
             [(py "value", PStr (py "John Doe")); (py "start", PInt 0); (py "end", PInt 3)];
           mkSpan 22 33 (py "123-45-6789") (PStr (py "Unknown"))
             [(py "value", PStr (py "123-45-6789"))]].
Proof. intros repr. vm_compute. reflexivity. Qed.

(** A value that occurs twice is given its second occurrence when the
    first is taken, and none when both are. *)
Example resolve_repeated_value :
  forall repr : pyval -> str,
    collect repr (py "Ann met Ann")
      [PDict [(py "value", PStr (py "Ann"))]; PDict [(py "value", PStr (py "Ann "))];
       PDict [(py "value", PStr (py "Ann"))]]
    = Ret [mkSpan 0 3 (py "Ann") (PStr (py "Unknown")) [(py "value", PStr (py "Ann"))];
           mkSpan 8 11 (py "Ann") (PStr (py "Unknown")) [(py "value", PStr (py "Ann "))]].
Proof. intros repr. vm_compute. reflexivity. Qed.

(** ** The resolver on an empty or ill-typed findings argument *)

(** C9: on the empty list, and on any argument that is not a list, the
    resolver returns the text as it is: it raises nothing and inserts no
    markup. *)
Theorem highlight_identity_on_empty_or_non_list :
  forall (repr : pyval -> str) (text : str) (phi_instances : pyval),
    phi_instances = PList [] \/ is_list phi_instances = false ->
    highlight_phi_instances repr text phi_instances = Ret text.
Proof.
  intros repr text v [-> | Hnl]; [reflexivity|].
  unfold highlight_phi_instances. rewrite Hnl. simpl.
  now rewrite orb_true_r.
Qed.

Lemma highlight_identity_on_empty_or_non_list_witness :
  highlight_phi_instances (fun _ => []) (py "Seen 2020-01-01") (PList [])
  = Ret (py "Seen 2020-01-01")
  /\
  highlight_phi_instances (fun _ => []) (py "Seen 2020-01-01")
    (PDict [(py "value", PStr (py "2020-01-01"))])
  = Ret (py "Seen 2020-01-01").
Proof.
  split.
  - apply (highlight_identity_on_empty_or_non_list (fun _ => []) (py "Seen 2020-01-01")
             (PList [])).
    left; reflexivity.
  - apply (highlight_identity_on_empty_or_non_list (fun _ => []) (py "Seen 2020-01-01")
             (PDict [(py "value", PStr (py "2020-01-01"))])).
    right; reflexivity.
Defined.

(** * Further properties of the code *)

(** ** More on the resolver *)

Section ResolverMore.

Variable repr : pyval -> str.

Lemma resolve_instance_sound (text : str) (all : list pyval) (acc acc' : list Span)
  (instance : pyval) :
  In instance all ->
  Forall (span_sound repr text all) acc ->
  resolve_instance repr text acc instance = Ret acc' ->
  Forall (span_sound repr text all) acc'.
Proof.
  intros Hin Hacc. destruct instance; simpl; try discriminate.
  - destruct (find s (py "value") 0 =? -1); [|discriminate].
    intros H; injection H as <-; exact Hacc.
  - destruct (existsb is_value_key l); [discriminate|].
    intros H; injection H as <-; exact Hacc.
  - destruct (resolve_dict_cases repr text acc d)
      as [[Hr _] | (v & Ev & Et & [[Hr _] | (pos & Hr & Ho & _ & _)])];
      rewrite Hr; intros H; injection H as <-; try exact Hacc.
    apply Forall_app. split; [exact Hacc|]. constructor; [|constructor].
    pose proof (occurs_at_bounds _ _ _ Ho) as Hb.
    unfold span_sound, span_of; cbn [sp_start sp_end sp_value sp_phi_type sp_original_instance].
    repeat split; eauto; try lia.
    now apply slice_at_occurrence.
Qed.

Lemma collect_from_sound (text : str) (all : list pyval) : forall l acc spans,
  incl l all ->
  Forall (span_sound repr text all) acc ->
  collect_from repr text acc l = Ret spans ->
  Forall (span_sound repr text all) spans.
Proof.
  induction l as [|x l IH]; intros acc spans Hincl Hacc; simpl.
  - intros H; injection H as <-; exact Hacc.
  - destruct (resolve_instance repr text acc x) as [a| |] eqn:E; simpl; try discriminate.
    apply IH.
    + intros y Hy. apply Hincl. now right.
    + eapply resolve_instance_sound; [|exact Hacc|exact E]. apply Hincl. now left.
Qed.

(** No occurrence, no span. *)
Lemma resolve_dict_absent (text : str) (acc : list Span) (d : dict) :
  (forall v, dict_get d (py "value") = Some v -> truthy v = true ->
             forall p, ~ occurs_at text (strip (str_of repr v)) p) ->
  resolve_dict repr text acc d = Ret acc.
Proof.
  intros Habs.
  destruct (resolve_dict_cases repr text acc d)
    as [[Hr _] | (v & Ev & Et & [[Hr _] | (pos & _ & Ho & _)])]; auto.
  exfalso. exact (Habs v Ev Et pos Ho).
Qed.

Lemma collect_from_absent (text : str) (findings : list dict) : forall acc,
  (forall d v, In d findings -> dict_get d (py "value") = Some v -> truthy v = true ->
               forall p, ~ occurs_at text (strip (str_of repr v)) p) ->
  collect_from repr text acc (map PDict findings) = Ret acc.
Proof.
  induction findings as [|d l IH]; intros acc Habs; simpl; [reflexivity|].
  rewrite resolve_dict_absent by (intros v; apply Habs; now left).
  simpl. apply IH. intros d' v Hd. apply Habs. now right.
Qed.

Lemma unusable_entry_raises (text : str) (acc : list Span) (instance : pyval) :
  unusable_entry instance -> resolve_instance repr text acc instance = Raise TypeError.
Proof.
  intros [-> | [[b ->] | [[z ->] | [[f ->] | (s & p & -> & Ho)]]]]; try reflexivity.
  simpl. destruct (find_spec s (py "value") 0 ltac:(lia)) as [[_ Hnone] | (Hge & _ & _)].
  - exfalso. apply (Hnone p); [|exact Ho]. apply occurs_at_bounds in Ho. lia.
  - replace (find s (py "value") 0 =? -1) with false
      by (symmetry; apply Z.eqb_neq; lia).
    reflexivity.
Qed.

(** The overlap test reads the ranges of the accepted spans only. *)
Lemma existsb_overlaps_ranges (pos : Z) (value : str) (acc1 acc2 : list Span) :
  map span_range acc1 = map span_range acc2 ->
  existsb (overlaps pos value) acc1 = existsb (overlaps pos value) acc2.
Proof.
  revert acc2; induction acc1 as [|a acc1 IH]; intros [|b acc2] H; simpl in *;
    try discriminate; [reflexivity|].
  injection H as Hs He _ Hrest.
  unfold overlaps at 1 3. rewrite Hs, He. f_equal. now apply IH.
Qed.

Lemma search_ranges (text value : str) (acc1 acc2 : list Span) :
  map span_range acc1 = map span_range acc2 ->
  forall fuel start,
    search fuel text value acc1 start = search fuel text value acc2 start.
Proof.
  intros H. induction fuel as [|fuel IH]; intros start; simpl; [reflexivity|].
  rewrite (existsb_overlaps_ranges _ _ _ _ H).
  destruct (find text value start =? -1); [reflexivity|].
  destruct (existsb _ acc2); [apply IH | reflexivity].
Qed.

Lemma collect_from_ranges (text : str) : forall (l1 l2 : list dict) (acc1 acc2 : list Span),
  map (fun d => dict_get d (py "value")) l1 = map (fun d => dict_get d (py "value")) l2 ->
  map span_range acc1 = map span_range acc2 ->
  accepted_ok text acc1 -> accepted_ok text acc2 ->
  exists spans1 spans2,
    collect_from repr text acc1 (map PDict l1) = Ret spans1 /\
    collect_from repr text acc2 (map PDict l2) = Ret spans2 /\
    map span_range spans1 = map span_range spans2.
Proof.
  induction l1 as [|d1 l1 IH]; intros [|d2 l2] acc1 acc2 Hv Hr Hok1 Hok2;
    simpl in Hv; try discriminate.
  - exists acc1, acc2. auto.
  - injection Hv as Hv Hrest.
    destruct (resolve_dict_ok repr text acc1 d1 Hok1) as (a1 & E1 & Ha1).
    destruct (resolve_dict_ok repr text acc2 d2 Hok2) as (a2 & E2 & Ha2).
    cbn [map collect_from resolve_instance]. rewrite E1, E2. cbn [bind].
    apply IH; auto.
    unfold resolve_dict in E1, E2. rewrite <- Hv in E2.
    destruct (dict_get d1 (py "value")) as [v|]; [|congruence].
    destruct (truthy v); [|congruence].
    rewrite (search_ranges text _ acc1 acc2 Hr) in E1.
    destruct (search (enough_fuel text) text (strip (str_of repr v)) acc2 0) as [[|pos]| |];
      simpl in E1, E2; try discriminate; try congruence.
    injection E1 as <-. injection E2 as <-.
    rewrite !map_app, Hr. reflexivity.
Qed.

End ResolverMore.

(** X1: when no accepted span is empty, what [highlight_phi_instances]
    returns is the reference annotation of the text: for the arrangement of
    the accepted spans by ascending start, every span's value is wrapped
    where it occurs and the text between the spans is as it was. *)
Theorem highlight_is_reference_annotation :
  forall (repr : pyval -> str) (text : str) (phi_instances : list pyval)
         (spans ascending : list Span),
    collect repr text phi_instances = Ret spans ->
    Forall (fun sp => sp_value sp <> []) spans ->
    Permutation ascending spans ->
    StronglySorted starts_before ascending ->
    highlight_phi_instances repr text (PList phi_instances)
    = Ret (reference_annotation repr text ascending).
Proof.
  intros repr text l spans asc Hc Hne Hperm Hasc.
  pose proof (collect_ok repr text _ _ Hc) as Hok.
  destruct (sort_desc_chain text spans Hok Hne) as [Hch Hs].
  assert (Easc : asc = rev (sort_desc spans)).
  { apply ascending_unique; auto.
    rewrite Hperm, <- Permutation_rev. symmetry. apply sort_desc_perm. }
  destruct l as [|i rest].
  - injection Hc as <-. subst asc. simpl.
    unfold reference_annotation. simpl.
    rewrite slice_from_0 by (pose proof (len_nonneg text); lia).
    now rewrite slice_to_all.
  - unfold highlight_phi_instances. simpl truthy. simpl is_list. simpl orb.
    cbv iota. rewrite Hc. simpl bind. rewrite Easc.
    now rewrite apply_highlighting_chain.
Qed.

Lemma highlight_is_reference_annotation_witness :
  highlight_phi_instances (fun _ => []) (py "John Doe")
    (PList [PDict [(py "value", PStr (py "Doe"))]; PDict [(py "value", PStr (py "John"))]])
  = Ret (reference_annotation (fun _ => []) (py "John Doe")
           [mkSpan 0 4 (py "John") (PStr (py "Unknown")) [(py "value", PStr (py "John"))];
            mkSpan 5 8 (py "Doe") (PStr (py "Unknown")) [(py "value", PStr (py "Doe"))]]).
Proof.
  apply (highlight_is_reference_annotation (fun _ => []) (py "John Doe")
           [PDict [(py "value", PStr (py "Doe"))]; PDict [(py "value", PStr (py "John"))]]
           [mkSpan 5 8 (py "Doe") (PStr (py "Unknown")) [(py "value", PStr (py "Doe"))];
            mkSpan 0 4 (py "John") (PStr (py "Unknown")) [(py "value", PStr (py "John"))]]).
  - reflexivity.
  - repeat constructor; discriminate.
  - apply perm_swap.
  - repeat constructor; unfold starts_before; simpl; lia.
Defined.

Lemma find_none_no_occurrence (text value : str) :
  find text value 0 = -1 -> forall p, ~ occurs_at text value p.
Proof.
  intros Hf p Ho. pose proof (occurs_at_bounds _ _ _ Ho) as Hb.
  destruct (find_spec text value 0 ltac:(lia)) as [[_ Hnone] | (Hge & _ & _)].
  - apply (Hnone p); [lia | exact Ho].
  - lia.
Qed.

(** X2: every span the first loop accepts comes from one of the findings,
    holds the stripped string form of that finding's truthy value and the
    PHI type read from it, lies within the text, and covers exactly that
    form in the text. *)
Theorem accepted_spans_sound :
  forall (repr : pyval -> str) (text : str) (phi_instances : list pyval)
         (spans : list Span),
    collect repr text phi_instances = Ret spans ->
    Forall (span_sound repr text phi_instances) spans.
Proof.
  intros repr text l spans Hc.
  apply (collect_from_sound repr text l l [] spans); auto.
  apply incl_refl.
Qed.

Lemma accepted_spans_sound_witness :
  Forall (span_sound (fun _ => []) (py "Ann met Ann")
            [PDict [(py "value", PStr (py " Ann")); (py "type", PStr (py "Names"))];
             PDict [(py "value", PStr (py "Ann"))]])
    [mkSpan 0 3 (py "Ann") (PStr (py "Names"))
       [(py "value", PStr (py " Ann")); (py "type", PStr (py "Names"))];
     mkSpan 8 11 (py "Ann") (PStr (py "Unknown")) [(py "value", PStr (py "Ann"))]].
Proof.
  apply (accepted_spans_sound (fun _ => []) (py "Ann met Ann")
           [PDict [(py "value", PStr (py " Ann")); (py "type", PStr (py "Names"))];
            PDict [(py "value", PStr (py "Ann"))]]).
  reflexivity.
Defined.

(** X3: when the stripped form of no truthy value occurs in the text, the
    resolver inserts no markup: it returns the text as it is. *)
Theorem absent_values_leave_text :
  forall (repr : pyval -> str) (text : str) (findings : list dict),
    (forall d v, In d findings -> dict_get d (py "value") = Some v -> truthy v = true ->
                 forall p, ~ occurs_at text (strip (str_of repr v)) p) ->
    highlight_phi_instances repr text (PList (map PDict findings)) = Ret text.
Proof.
  intros repr text findings Habs. unfold highlight_phi_instances.
  destruct findings as [|d l]; [reflexivity|].
  unfold collect.
  rewrite (collect_from_absent repr text (d :: l) [] Habs). reflexivity.
Qed.

Lemma absent_values_leave_text_witness :
  highlight_phi_instances (fun _ => []) (py "Seen 2020")
    (PList (map PDict [[(py "value", PStr (py "John"))]; [(py "type", PStr (py "Names"))];
                       [(py "value", PInt 0)]]))
  = Ret (py "Seen 2020").
Proof.
  apply (absent_values_leave_text (fun _ => []) (py "Seen 2020")
           [[(py "value", PStr (py "John"))]; [(py "type", PStr (py "Names"))];
            [(py "value", PInt 0)]]).
  intros d v [<- | [<- | [<- | []]]] Hv Ht p Ho.
  - injection Hv as <-. revert Ho. apply find_none_no_occurrence. reflexivity.
  - discriminate.
  - injection Hv as <-. discriminate.
Defined.

(** X4: a findings list is taken entry by entry, and an entry that is
    [None], a bool, a number or a string in which "value" occurs aborts the
    resolver with a [TypeError], whatever follows it; a string in which
    "value" does not occur is passed over. *)
Theorem non_dict_entries :
  forall (repr : pyval -> str) (text : str) (pre : list dict) (rest : list pyval),
    (forall bad, unusable_entry bad ->
       highlight_phi_instances repr text (PList (map PDict pre ++ bad :: rest))
       = Raise TypeError)
    /\
    (forall s, (forall p, ~ occurs_at s (py "value") p) ->
       collect repr text (map PDict pre ++ PStr s :: rest)
       = collect repr text (map PDict pre ++ rest)).
Proof.
  intros repr text pre rest.
  destruct (collect_from_dicts repr text pre [] (accepted_ok_nil text)) as [acc Hacc].
  split.
  - intros bad Hbad. unfold highlight_phi_instances.
    replace (truthy (PList (map PDict pre ++ bad :: rest))) with true
      by (destruct pre; reflexivity).
    cbn [is_list negb orb]. unfold collect.
    rewrite collect_from_app, Hacc. cbn [bind collect_from].
    now rewrite unusable_entry_raises.
  - intros s Hs. unfold collect. rewrite !collect_from_app, Hacc. cbn [bind collect_from].
    cbn [resolve_instance].
    destruct (find_spec s (py "value") 0 ltac:(lia)) as [[-> _] | (_ & Ho & _)].
    + reflexivity.
    + exfalso. exact (Hs _ Ho).
Qed.

Lemma non_dict_entries_witness :
  highlight_phi_instances (fun _ => []) (py "John Doe")
    (PList (map PDict [[(py "value", PStr (py "John"))]] ++ PInt 7 :: []))
  = Raise TypeError.
Proof.
  apply (proj1 (non_dict_entries (fun _ => []) (py "John Doe")
                  [[(py "value", PStr (py "John"))]] [])).
  right. right. left. exists 7. reflexivity.
Defined.

(** X5: the ranges the resolver gives depend on the findings' values only:
    two lists of findings with the same values, entry by entry, are given
    the same ranges, whatever offsets, types or other fields they carry. *)
Theorem ranges_depend_on_values_only :
  forall (repr : pyval -> str) (text : str) (findings1 findings2 : list dict),
    map (fun d => dict_get d (py "value")) findings1 =
    map (fun d => dict_get d (py "value")) findings2 ->
    exists spans1 spans2,
      collect repr text (map PDict findings1) = Ret spans1 /\
      collect repr text (map PDict findings2) = Ret spans2 /\
      map span_range spans1 = map span_range spans2.
Proof.
  intros repr text l1 l2 Hv.
  apply (collect_from_ranges repr text l1 l2 [] []); auto using accepted_ok_nil.
Qed.

Lemma ranges_depend_on_values_only_witness :
  exists spans1 spans2,
    collect (fun _ => []) (py "Patient John Doe")
      (map PDict [[(py "value", PStr (py "John Doe")); (py "start", PInt 0); (py "end", PInt 3)]])
    = Ret spans1 /\
    collect (fun _ => []) (py "Patient John Doe")
      (map PDict [[(py "type", PStr (py "Names")); (py "value", PStr (py "John Doe"))]])
    = Ret spans2 /\
    map span_range spans1 = map span_range spans2.
Proof.
  apply (ranges_depend_on_values_only (fun _ => []) (py "Patient John Doe")
           [[(py "value", PStr (py "John Doe")); (py "start", PInt 0); (py "end", PInt 3)]]
           [[(py "type", PStr (py "Names")); (py "value", PStr (py "John Doe"))]]).
  reflexivity.
Defined.

(** X6: for a single finding whose stripped value occurs in the text, the
    resolver wraps the first occurrence, the one [find] returns from offset
    0, and leaves the text before and after it as it is. *)
Theorem single_finding_wraps_first_occurrence :
  forall (repr : pyval -> str) (text : str) (d : dict) (v : pyval) (p : Z),
    dict_get d (py "value") = Some v ->
    truthy v = true ->
    occurs_at text (strip (str_of repr v)) p ->
    highlight_phi_instances repr text (PList [PDict d])
    = Ret (slice_to text (find text (strip (str_of repr v)) 0) ++
           highlighted_value repr
             (span_of d (strip (str_of repr v)) (find text (strip (str_of repr v)) 0)) ++
           slice_from text
             (find text (strip (str_of repr v)) 0 + len (strip (str_of repr v)))).
Proof.
  intros repr text d v p Hv Ht Hp.
  unfold highlight_phi_instances. cbn [truthy is_list negb orb].
  unfold collect. cbn [collect_from resolve_instance].
  destruct (resolve_dict_cases repr text [] d)
    as [[_ [Hn | (v' & Ev & Et)]]
       | (v' & Ev & _ & [[_ Hall] | (pos & Hr & Ho & _ & Hlt)])];
    try congruence.
  - rewrite Hv in Ev. injection Ev as <-. specialize (Hall p Hp). discriminate.
  - rewrite Hv in Ev. injection Ev as <-. rewrite Hr. cbn [bind app].
    set (value := strip (str_of repr v)) in *.
    assert (Hq : pos = find text value 0).
    { pose proof (occurs_at_bounds _ _ _ Ho) as Hb.
      destruct (find_spec text value 0 ltac:(lia)) as [[_ Hnone] | (Hge & Hoq & Hleft)].
      - exfalso. apply (Hnone pos); [lia | exact Ho].
      - destruct (Z.lt_trichotomy pos (find text value 0)) as [Hlt' | [Heq | Hgt]].
        + exfalso. apply (Hleft pos); [lia | exact Ho].
        + exact Heq.
        + specialize (Hlt _ Hgt Hoq). discriminate. }
    rewrite <- Hq. reflexivity.
Qed.

Lemma single_finding_wraps_first_occurrence_witness :
  highlight_phi_instances (fun _ => []) (py "Ann met Ann")
    (PList [PDict [(py "value", PStr (py "Ann "))]])
  = Ret (slice_to (py "Ann met Ann") (find (py "Ann met Ann") (py "Ann") 0) ++
         highlighted_value (fun _ => [])
           (span_of [(py "value", PStr (py "Ann "))] (py "Ann")
              (find (py "Ann met Ann") (py "Ann") 0)) ++
         slice_from (py "Ann met Ann")
           (find (py "Ann met Ann") (py "Ann") 0 + len (py "Ann"))).
Proof.
  apply (single_finding_wraps_first_occurrence (fun _ => []) (py "Ann met Ann")
           [(py "value", PStr (py "Ann "))] (PStr (py "Ann ")) 8).
  - reflexivity.
  - reflexivity.
  - exists (py "Ann met "), []. split; reflexivity.
Defined.

(** ** The file name *)

Lemma split_char_nonempty (s : str) (sep : char) : split_char s sep <> [].
Proof.
  destruct s as [|c s]; simpl; [discriminate|].
  destruct (N.eqb c sep); [discriminate|].
  destruct (split_char s sep); discriminate.
Qed.

Lemma split_char_join (sep : char) (s : str) :
  join_char sep (split_char s sep) = s.
Proof.
  induction s as [|c s IH]; [reflexivity|]. simpl split_char.
  pose proof (split_char_nonempty s sep) as Hn.
  destruct (split_char s sep) as [|part parts]; [congruence|].
  destruct (N.eqb_spec c sep) as [-> | Hne].
  - change (join_char sep ([] :: part :: parts))
      with (sep :: join_char sep (part :: parts)).
    now rewrite IH.
  - destruct parts as [|part' parts].
    + simpl in *. now rewrite IH.
    + change (join_char sep ((c :: part) :: part' :: parts))
        with (c :: join_char sep (part :: part' :: parts)).
      now rewrite IH.
Qed.

Lemma split_char_no_sep (sep : char) (s : str) :
  Forall (fun part => ~ In sep part) (split_char s sep).
Proof.
  induction s as [|c s IH]; simpl.
  - constructor; [intros [] | constructor].
  - destruct (N.eqb_spec c sep) as [-> | Hne].
    + constructor; [intros [] | exact IH].
    + destruct (split_char s sep) as [|part parts].
      * constructor; [|constructor]. intros [H | []]. congruence.
      * inversion IH; subst. constructor; [|assumption].
        intros [H | H]; [congruence | contradiction].
Qed.

Lemma join_char_last (sep : char) (parts : list str) :
  parts <> [] ->
  join_char sep parts = last parts [] \/
  exists stem, join_char sep parts = stem ++ sep :: last parts [].
Proof.
  induction parts as [|part parts IH]; intros Hne; [congruence|].
  destruct parts as [|part' parts]; [left; reflexivity|].
  right.
  assert (E : join_char sep (part :: part' :: parts)
              = part ++ sep :: join_char sep (part' :: parts)) by reflexivity.
  rewrite E. change (last (part :: part' :: parts) [])
    with (last (part' :: parts) []).
  destruct (IH ltac:(discriminate)) as [-> | [stem ->]].
  - now exists part.
  - exists (part ++ sep :: stem). now rewrite <- app_assoc.
Qed.

(** The last part of a split: it holds no separator, and the string is that
    part alone or ends with a separator and that part. *)
Lemma split_char_last (sep : char) (s : str) :
  ~ In sep (last (split_char s sep) []) /\
  (s = last (split_char s sep) [] \/
   exists stem, s = stem ++ sep :: last (split_char s sep) []).
Proof.
  pose proof (split_char_nonempty s sep) as Hn.
  split.
  - pose proof (split_char_no_sep sep s) as Hf. rewrite Forall_forall in Hf.
    apply Hf. destruct (exists_last Hn) as (init & e & ->).
    rewrite last_last. apply in_or_app. right. now left.
  - pose proof (join_char_last sep (split_char s sep) Hn) as H.
    now rewrite (split_char_join sep s) in H.
Qed.

Lemma after_last_sep_unique (sep : char) : forall (l1 l2 e1 e2 : str),
  ~ In sep e1 -> ~ In sep e2 -> l1 ++ sep :: e1 = l2 ++ sep :: e2 -> e1 = e2.
Proof.
  induction l1 as [|x l1 IH]; intros [|y l2] e1 e2 H1 H2 E; simpl in E.
  - now injection E.
  - injection E as <- E. exfalso. apply H1. rewrite E. apply in_or_app. right. now left.
  - injection E as -> E. exfalso. apply H2. rewrite <- E. apply in_or_app. right. now left.
  - injection E as _ E. eapply IH; eassumption.
Qed.

Lemma split_char_after_sep (sep : char) (stem e : str) :
  ~ In sep e -> last (split_char (stem ++ sep :: e) sep) [] = e.
Proof.
  intros He.
  destruct (split_char_last sep (stem ++ sep :: e)) as [Hno [Heq | [stem' Heq]]].
  - exfalso. apply Hno. rewrite <- Heq. apply in_or_app. right. now left.
  - symmetry. eapply after_last_sep_unique; eassumption.
Qed.

Lemma ascii_lower_dot (c : char) : ascii_lower c = dot <-> c = dot.
Proof.
  unfold ascii_lower, dot.
  destruct ((65 <=? c) && (c <=? 90))%N eqn:E; [|reflexivity].
  apply andb_true_iff in E as [E1 E2]. apply N.leb_le in E1, E2. lia.
Qed.

Lemma map_ascii_lower_no_dot (e : str) : ~ In dot e -> ~ In dot (map ascii_lower e).
Proof.
  intros He Hin. apply in_map_iff in Hin as (c & Hc & Hin).
  apply (proj1 (ascii_lower_dot c)) in Hc. subst c. contradiction.
Qed.

(** X7: the extension [get_file_data] returns is the part of the lowered
    path after its last dot, or the whole lowered path when it has no dot;
    it never holds a dot, and the bytes are passed through. *)
Theorem file_ext_is_after_last_dot :
  forall (unicode_lower : str -> str) (file_bytes : list byte) (file_path : str),
    fst (get_file_data unicode_lower file_bytes file_path) = file_bytes /\
    ~ In dot (snd (get_file_data unicode_lower file_bytes file_path)) /\
    (lower unicode_lower file_path = snd (get_file_data unicode_lower file_bytes file_path)
     \/
     exists stem,
       lower unicode_lower file_path =
       stem ++ dot :: snd (get_file_data unicode_lower file_bytes file_path)).
Proof.
  intros ul file_bytes file_path. split; [reflexivity|].
  exact (split_char_last dot (lower ul file_path)).
Qed.

Lemma is_ascii_app (a b : str) : is_ascii (a ++ b) = is_ascii a && is_ascii b.
Proof. apply forallb_app. Qed.

Lemma is_ascii_last_part (name : str) :
  is_ascii name = true -> is_ascii (last (split_char name dot) []) = true.
Proof.
  intros H. destruct (split_char_last dot name) as [_ [Heq | [stem Heq]]].
  - now rewrite <- Heq.
  - rewrite Heq, is_ascii_app in H. apply andb_true_iff in H as [_ H].
    simpl in H. exact H.
Qed.

(** X8: for an upload with an ASCII name, saved under an ASCII path that
    ends with a dot and the last dot-part of the name, [validate_file_type]
    accepts the upload exactly when the router finds an extractor for the
    saved file. *)
Theorem validation_agrees_with_router :
  forall (unicode_lower : str -> str) (name stem : str) (file_bytes : list byte)
         (exclude_filter : list str),
    is_ascii name = true ->
    is_ascii stem = true ->
    (validate_file_type unicode_lower (Some name) = true <->
     exists node,
       input_router
         (initial_state file_bytes
            (snd (get_file_data unicode_lower file_bytes
                    (stem ++ dot :: last (split_char name dot) [])))
            exclude_filter) = Ret node).
Proof.
  intros ul name stem file_bytes exclude_filter Hname Hstem.
  set (e := last (split_char name dot) []).
  assert (He : is_ascii e = true) by now apply is_ascii_last_part.
  assert (Hno : ~ In dot e) by apply (split_char_last dot name).
  assert (Hext : snd (get_file_data ul file_bytes (stem ++ dot :: e)) = map ascii_lower e).
  { unfold get_file_data, lower. cbn [snd].
    replace (is_ascii (stem ++ dot :: e)) with true
      by (rewrite is_ascii_app, Hstem; simpl; now rewrite He).
    rewrite map_app. cbn [map]. change (ascii_lower dot) with dot.
    apply split_char_after_sep. now apply map_ascii_lower_no_dot. }
  rewrite Hext. unfold validate_file_type, lower. fold e. rewrite He.
  unfold input_router, initial_state. cbn [ds_file_ext existsb].
  destruct (str_eqb (map ascii_lower e) (py "png")); [split; eauto|].
  destruct (str_eqb (map ascii_lower e) (py "pdf")); [split; eauto|].
  destruct (str_eqb (map ascii_lower e) (py "csv")); [split; eauto|].
  split; [discriminate | intros [node H]; discriminate].
Qed.

Lemma validation_agrees_with_router_witness :
  validate_file_type (fun s => s) (Some (py "scan.v2.PNG")) = true <->
  exists node,
    input_router
      (initial_state [] (snd (get_file_data (fun s => s) []
                                (py "/tmp/tmpk3f9" ++ dot :: last (split_char (py "scan.v2.PNG") dot) [])))
         []) = Ret node.
Proof.
  apply (validation_agrees_with_router (fun s => s) (py "scan.v2.PNG") (py "/tmp/tmpk3f9") [] []);
    reflexivity.
Defined.

Example file_ext_examples :
  snd (get_file_data (fun s => s) [] (py "sample_files/Sample_Note.PNG")) = py "png" /\
  snd (get_file_data (fun s => s) [] (py "archive.tar.GZ")) = py "gz" /\
  snd (get_file_data (fun s => s) [] (py "CSV")) = py "csv" /\
  snd (get_file_data (fun s => s) [] (py "notes.")) = [] /\
  validate_file_type (fun s => s) None = false /\
  validate_file_type (fun s => s) (Some (py "report.Pdf")) = true /\
  validate_file_type (fun s => s) (Some (py "report.pdf.exe")) = false.
Proof. repeat split. Qed.

(** ** The extractors and the flow *)

Lemma lstrip_map (f : char -> char) (s : str) :
  (forall c, isspace (f c) = isspace c) -> lstrip (map f s) = map f (lstrip s).
Proof.
  intros Hf. induction s as [|c s IH]; [reflexivity|].
  simpl. rewrite Hf. destruct (isspace c); [exact IH | reflexivity].
Qed.

Lemma strip_map (f : char -> char) (s : str) :
  (forall c, isspace (f c) = isspace c) -> strip (map f s) = map f (strip s).
Proof.
  intros Hf. unfold strip, rstrip.
  now rewrite lstrip_map, <- map_rev, lstrip_map, map_rev by exact Hf.
Qed.

Lemma newline_to_space_isspace (c : char) :
  isspace (if N.eqb c newline then 32%N else c) = isspace c.
Proof.
  destruct (N.eqb c newline) eqn:E; [|reflexivity].
  apply N.eqb_eq in E. now rewrite E.
Qed.

(** X9: the text [ocr_tool] writes is the stripped recognised text with
    every line feed turned into a space: it holds no line feed, has no
    whitespace at either end, has the length of the stripped text, and
    every other character is where it was; nothing else of the state
    changes. *)
Theorem ocr_text_shape :
  forall (image_to_string : list byte -> outcome str) (doc_state after : docState),
    ocr_tool image_to_string doc_state = Ret after ->
    exists recognised,
      image_to_string (ds_input doc_state) = Ret recognised /\
      ~ In newline (ds_text after) /\
      strip (ds_text after) = ds_text after /\
      len (ds_text after) = len (strip recognised) /\
      (forall i c, nth_error (strip recognised) i = Some c -> c <> newline ->
                   nth_error (ds_text after) i = Some c) /\
      after = set_text doc_state (ds_text after).
Proof.
  intros ocr st after H. unfold ocr_tool in H.
  destruct (ocr (ds_input st)) as [recognised| |]; simpl in H; try discriminate.
  injection H as <-. exists recognised. cbn [ds_text set_text].
  split; [reflexivity|]. unfold replace_char. repeat split.
  - intros Hin. apply in_map_iff in Hin as (c & Hc & _).
    destruct (N.eqb c newline) eqn:E; [discriminate|].
    apply N.eqb_neq in E. contradiction.
  - rewrite strip_map by exact newline_to_space_isspace.
    now rewrite strip_idempotent.
  - unfold len. now rewrite length_map.
  - intros i c Hi Hc. rewrite nth_error_map, Hi. simpl.
    destruct (N.eqb_spec c newline); [contradiction | reflexivity].
Qed.

Lemma ocr_text_shape_witness :
  exists recognised,
    (fun _ : list byte => Ret ([newline] ++ py "John" ++ [newline] ++ py "Doe ")) [] = Ret recognised /\
    ~ In newline (py "John Doe") /\
    strip (py "John Doe") = py "John Doe" /\
    len (py "John Doe") = len (strip recognised) /\
    (forall i c, nth_error (strip recognised) i = Some c -> c <> newline ->
                 nth_error (py "John Doe") i = Some c) /\
    mkDocState [] (py "png") (py "John Doe") [] [] =
    set_text (mkDocState [] (py "png") [] [] []) (py "John Doe").
Proof.
  apply (ocr_text_shape (fun _ => Ret ([newline] ++ py "John" ++ [newline] ++ py "Doe "))
           (mkDocState [] (py "png") [] [] [])
           (mkDocState [] (py "png") (py "John Doe") [] [])).
  reflexivity.
Defined.

Section Flow.

Variable repr : pyval -> str.
Variable llm_invoke : str -> str.
Variable json_loads : str -> option pyval.
Variable image_to_string : list byte -> outcome str.
Variable pdf_page_texts : list byte -> outcome (list (option str)).
Variable read_csv : list byte -> outcome DataFrame.

(** An extractor writes the text and nothing else. *)
Lemma extract_sets_text (doc_state with_text : docState) :
  extract repr image_to_string pdf_page_texts read_csv doc_state = Ret with_text ->
  with_text = set_text doc_state (ds_text with_text).
Proof.
  unfold extract, ocr_tool, pdf_parser_tool, csv_parser_tool.
  destruct (input_router doc_state) as [[| |]| |]; simpl; try discriminate.
  - destruct (image_to_string _); simpl; try discriminate.
    intros H; injection H as <-; reflexivity.
  - destruct (pdf_page_texts _); simpl; try discriminate.
    intros H; injection H as <-; reflexivity.
  - destruct (read_csv _); simpl; try discriminate.
    intros H; injection H as <-; reflexivity.
Qed.

(** After Detection the history is not empty, so Classification returns. *)
Lemma stages_return (with_text : docState) :
  exists detected classified,
    phi_rationale repr llm_invoke json_loads (phi_identifier llm_invoke json_loads with_text)
    = Ret (append_instances (append_instances with_text detected) classified).
Proof.
  rewrite phi_identifier_appends.
  set (detected := match array_text _ with Some _ => _ | None => _ end).
  exists detected.
  rewrite (phi_rationale_appends repr llm_invoke json_loads
             (append_instances with_text detected) detected).
  - eexists. reflexivity.
  - cbn [ds_instances append_instances].
    destruct (ds_instances with_text) as [|x l]; [reflexivity|].
    simpl. f_equal. apply last_last.
Qed.

End Flow.

(** X10: a run that returns has changed the text and the history only: the
    payload, the format tag and the exclusion filter of the final state are
    those of the start, its text is the one the extractor wrote, and its
    history is the history of the start with the two entries of the stages
    after it. *)
Theorem flow_changes_text_and_history_only :
  forall (repr : pyval -> str) (llm_invoke : str -> str)
         (json_loads : str -> option pyval)
         (image_to_string : list byte -> outcome str)
         (pdf_page_texts : list byte -> outcome (list (option str)))
         (read_csv : list byte -> outcome DataFrame)
         (doc_state final : docState),
    flow_graph_invoke repr llm_invoke json_loads image_to_string pdf_page_texts read_csv
      doc_state = Ret final ->
    ds_input final = ds_input doc_state /\
    ds_file_ext final = ds_file_ext doc_state /\
    ds_exclude_filter final = ds_exclude_filter doc_state /\
    (exists with_text,
       extract repr image_to_string pdf_page_texts read_csv doc_state = Ret with_text /\
       ds_text final = ds_text with_text) /\
    (exists detected classified,
       ds_instances final = ds_instances doc_state ++ [detected; classified]).
Proof.
  intros repr llm jl ocr pdf csv st final H. unfold flow_graph_invoke in H.
  destruct (extract repr ocr pdf csv st) as [w| |] eqn:E; simpl in H; try discriminate.
  pose proof (extract_sets_text repr ocr pdf csv st w E) as Hw.
  destruct (stages_return repr llm jl w) as (d & c & Hs).
  rewrite Hs in H. injection H as <-. rewrite Hw.
  cbn [ds_input ds_file_ext ds_exclude_filter ds_text ds_instances append_instances set_text].
  repeat split; eauto.
  exists d, c. now rewrite <- app_assoc.
Qed.

Lemma flow_changes_text_and_history_only_witness :
  exists final,
    flow_graph_invoke (fun _ => []) (fun _ => py "[]") (fun _ => None)
      (fun _ => Ret (py "Patient John Doe")) (fun _ => Ret []) (fun _ => Raise TypeError)
      (initial_state [] (py "png") [py "Names"]) = Ret final /\
    ds_exclude_filter final = [py "Names"] /\ ds_file_ext final = py "png".
Proof.
  eexists. split; [reflexivity|].
  destruct (flow_changes_text_and_history_only (fun _ => []) (fun _ => py "[]") (fun _ => None)
              (fun _ => Ret (py "Patient John Doe")) (fun _ => Ret []) (fun _ => Raise TypeError)
              (initial_state [] (py "png") [py "Names"]) _ eq_refl)
    as (_ & Hext & Hfilter & _).
  split; [exact Hfilter | exact Hext].
Defined.

(** ** What a run returns *)

Lemma startswith_firstn (s : str) (c : char) (n : nat) :
  startswith s [c] = true -> (0 < n)%nat -> startswith (firstn n s) [c] = true.
Proof.
  intros Hs Hn. destruct s as [|x s]; [discriminate|].
  destruct n as [|n]; [lia|]. exact Hs.
Qed.

(** The text handed to [json.loads] starts with the array-open character. *)
Lemma array_text_starts_with_bracket (content t : str) :
  array_text content = Some t -> startswith t (py "[") = true.
Proof.
  unfold array_text.
  destruct (startswith (strip content) (py "[")) eqn:E.
  - intros H; injection H as <-; exact E.
  - cbv zeta.
    destruct ((find content (py "[") 0 >=? 0) &&
              (rfind content (py "]") + 1 >? find content (py "[") 0)) eqn:Ec;
      [|discriminate].
    intros H; injection H as <-.
    apply andb_true_iff in Ec as [Ha Hb].
    apply Z.geb_le in Ha. rewrite Z.gtb_ltb in Hb. apply Z.ltb_lt in Hb.
    destruct (find_spec content (py "[") 0 ltac:(lia)) as [[Hm _] | (_ & Ho & _)]; [lia|].
    set (a := find content (py "[") 0) in *. set (b := rfind content (py "]") + 1) in *.
    pose proof (occurs_at_bounds _ _ _ Ho) as Hbd. change (len (py "[")) with 1 in Hbd.
    apply occurs_at_skipn in Ho as [_ Hs].
    unfold slice. rewrite (clip_in_range content a) by lia.
    apply startswith_firstn; [exact Hs|].
    unfold clip. replace (b <? 0) with false by (symmetry; apply Z.ltb_ge; lia). lia.
Qed.

Lemma last_entry_after_append (l : list pyval) (x : pyval) :
  last_entry (l ++ [x]) = Ret x.
Proof.
  unfold last_entry. destruct (l ++ [x]) as [|y l'] eqn:E.
  - destruct l; discriminate.
  - f_equal. pose proof (last_last l x y) as H. rewrite E in H.
    destruct l'; exact H.
Qed.

Section RunFlow.

Variable unicode_lower : str -> str.
Variable repr : pyval -> str.
Variable llm_invoke : str -> str.
Variable json_loads : str -> option pyval.
Variable image_to_string : list byte -> outcome str.
Variable pdf_page_texts : list byte -> outcome (list (option str)).
Variable read_csv : list byte -> outcome DataFrame.
Hypothesis json_arrays : arrays_parse_to_lists json_loads.

Lemma detected_is_list (content : str) :
  is_list match array_text content with
          | Some t => match json_loads t with Some v => v | None => PList [] end
          | None => PList []
          end = true.
Proof.
  destruct (array_text content) as [t|] eqn:E; [|reflexivity].
  destruct (json_loads t) as [v|] eqn:Ej; [|reflexivity].
  eapply json_arrays; [|exact Ej]. eapply array_text_starts_with_bracket; exact E.
Qed.

Lemma classified_is_list (content : str) (prior : pyval) :
  is_list prior = true ->
  is_list match array_text content with
          | Some t => match json_loads t with Some v => v | None => prior end
          | None => prior
          end = true.
Proof.
  intros Hp. destruct (array_text content) as [t|] eqn:E; [|exact Hp].
  destruct (json_loads t) as [v|] eqn:Ej; [|exact Hp].
  eapply json_arrays; [|exact Ej]. eapply array_text_starts_with_bracket; exact E.
Qed.

(** Either stage appends a list, Classification given that the entry
    before it is one. *)
Lemma stages_append_lists (with_text : docState) :
  exists detected classified,
    is_list detected = true /\ is_list classified = true /\
    phi_rationale repr llm_invoke json_loads (phi_identifier llm_invoke json_loads with_text)
    = Ret (append_instances (append_instances with_text detected) classified).
Proof.
  rewrite phi_identifier_appends.
  set (detected := match array_text _ with Some _ => _ | None => _ end).
  assert (Hd : is_list detected = true) by apply detected_is_list.
  exists detected.
  rewrite (phi_rationale_appends repr llm_invoke json_loads
             (append_instances with_text detected) detected).
  - eexists. split; [exact Hd|]. split; [|reflexivity].
    now apply classified_is_list.
  - cbn [ds_instances append_instances].
    destruct (ds_instances with_text) as [|x l]; [reflexivity|].
    simpl. f_equal. apply last_last.
Qed.

End RunFlow.

(** ** The run over a service that may fail *)

Section ServiceFlow.

Variable repr : pyval -> str.
Variable llm_invoke : str -> outcome str.
Variable json_loads : str -> option pyval.

(** Detection fails where its call of the service fails, and appends the
    entry of [phi_identifier_appends] where the call returns. *)
Lemma service_identifier_cases (doc_state : docState) :
  Service.phi_identifier llm_invoke json_loads doc_state =
  match llm_invoke (identifier_prompt doc_state) with
  | Ret content =>
      Ret (append_instances doc_state
             match array_text content with
             | Some t => match json_loads t with Some v => v | None => PList [] end
             | None => PList []
             end)
  | Raise e => Raise e
  | OutOfFuel => OutOfFuel
  end.
Proof.
  unfold Service.phi_identifier.
  destruct (llm_invoke (identifier_prompt doc_state)) as [content| |]; cbn [bind];
    [|reflexivity|reflexivity].
  unfold array_text.
  destruct (startswith (strip content) (py "[")).
  - destruct (json_loads (strip content)); reflexivity.
  - cbv zeta.
    destruct ((find content (py "[") 0 >=? 0) &&
              (rfind content (py "]") + 1 >? find content (py "[") 0)).
    + destruct (json_loads _); reflexivity.
    + reflexivity.
Qed.

(** Classification, on a history that is not empty, likewise. *)
Lemma service_rationale_cases (doc_state : docState) (prior : pyval) :
  last_entry (ds_instances doc_state) = Ret prior ->
  Service.phi_rationale repr llm_invoke json_loads doc_state =
  match llm_invoke (rationale_prompt repr prior) with
  | Ret content =>
      Ret (append_instances doc_state
             match array_text content with
             | Some t => match json_loads t with Some v => v | None => prior end
             | None => prior
             end)
  | Raise e => Raise e
  | OutOfFuel => OutOfFuel
  end.
Proof.
  intros Hlast. unfold Service.phi_rationale. rewrite Hlast. cbn [bind].
  destruct (llm_invoke (rationale_prompt repr prior)) as [response| |]; cbn [bind];
    [|reflexivity|reflexivity].
  rewrite <- (array_text_strip response).
  set (content := strip response).
  assert (Hid : strip content = content) by apply strip_idempotent.
  unfold array_text. rewrite Hid.
  destruct (startswith content (py "[")).
  - destruct (json_loads content); reflexivity.
  - cbv zeta.
    destruct ((find content (py "[") 0 >=? 0) &&
              (rfind content (py "]") + 1 >? find content (py "[") 0)).
    + destruct (json_loads _); reflexivity.
    + reflexivity.
Qed.

(** Where Detection returns, it has appended one entry. *)
Lemma service_identifier_returns (doc_state detected_state : docState) :
  Service.phi_identifier llm_invoke json_loads doc_state = Ret detected_state ->
  exists content,
    llm_invoke (identifier_prompt doc_state) = Ret content /\
    detected_state =
    append_instances doc_state
      match array_text content with
      | Some t => match json_loads t with Some v => v | None => PList [] end
      | None => PList []
      end.
Proof.
  rewrite service_identifier_cases.
  destruct (llm_invoke (identifier_prompt doc_state)) as [content| |]; try discriminate.
  intros H; injection H as <-. eauto.
Qed.

End ServiceFlow.

(** X11: the graph fails exactly where routing, extraction or one of the
    two calls of the service fails, and with that error, so a response that
    cannot be parsed never makes it fail.  Detection returns whenever the
    extractor and its call of the service return, with a history that is
    not empty, and the graph returns whenever the second call returns too.
    On a format tag other than png, pdf and csv the graph raises the
    router's [ValueError], whatever the payload, the libraries and the
    service are. *)
Theorem flow_fails_in_extraction_or_service :
  forall (repr : pyval -> str) (llm_invoke : str -> outcome str)
         (json_loads : str -> option pyval)
         (image_to_string : list byte -> outcome str)
         (pdf_page_texts : list byte -> outcome (list (option str)))
         (read_csv : list byte -> outcome DataFrame)
         (doc_state : docState),
    (forall e,
       Service.flow_graph_invoke repr llm_invoke json_loads image_to_string pdf_page_texts
         read_csv doc_state = Raise e <->
       extract repr image_to_string pdf_page_texts read_csv doc_state = Raise e \/
       exists with_text,
         extract repr image_to_string pdf_page_texts read_csv doc_state = Ret with_text /\
         (llm_invoke (identifier_prompt with_text) = Raise e \/
          exists detected_state prior,
            Service.phi_identifier llm_invoke json_loads with_text = Ret detected_state /\
            last_entry (ds_instances detected_state) = Ret prior /\
            llm_invoke (rationale_prompt repr prior) = Raise e))
    /\
    (forall with_text content,
       extract repr image_to_string pdf_page_texts read_csv doc_state = Ret with_text ->
       llm_invoke (identifier_prompt with_text) = Ret content ->
       exists detected_state prior,
         Service.phi_identifier llm_invoke json_loads with_text = Ret detected_state /\
         last_entry (ds_instances detected_state) = Ret prior /\
         (forall answer,
            llm_invoke (rationale_prompt repr prior) = Ret answer ->
            exists final,
              Service.flow_graph_invoke repr llm_invoke json_loads image_to_string
                pdf_page_texts read_csv doc_state = Ret final))
    /\
    (ds_file_ext doc_state <> py "png" -> ds_file_ext doc_state <> py "pdf" ->
     ds_file_ext doc_state <> py "csv" ->
     Service.flow_graph_invoke repr llm_invoke json_loads image_to_string pdf_page_texts
       read_csv doc_state = Raise (ValueError (py "Invalid file type"))).
Proof.
  intros repr llm jl ocr pdf csv st. unfold Service.flow_graph_invoke.
  split; [|split].
  - intros e. split.
    + destruct (extract repr ocr pdf csv st) as [w| |] eqn:E; cbn [bind];
        [|intros H; now left|discriminate].
      intros H. right. exists w. split; [reflexivity|].
      rewrite service_identifier_cases in H.
      destruct (llm (identifier_prompt w)) as [content| |] eqn:E1; cbn [bind] in H;
        [|injection H as ->; now left|discriminate].
      right.
      set (detected := match array_text content with
                       | Some t => match jl t with Some v => v | None => PList [] end
                       | None => PList []
                       end) in *.
      assert (Hlast : last_entry (ds_instances (append_instances w detected)) = Ret detected)
        by apply last_entry_after_append.
      rewrite (service_rationale_cases repr llm jl _ detected Hlast) in H.
      exists (append_instances w detected), detected.
      split; [rewrite service_identifier_cases, E1; reflexivity|].
      split; [exact Hlast|].
      destruct (llm (rationale_prompt repr detected));
        [discriminate|injection H as ->; reflexivity|discriminate].
    + intros [E | (w & E & [E1 | (st1 & prior & Hd & Hlast & E2)])]; rewrite E; cbn [bind].
      * reflexivity.
      * now rewrite service_identifier_cases, E1.
      * rewrite Hd. cbn [bind].
        now rewrite (service_rationale_cases repr llm jl st1 prior Hlast), E2.
  - intros w content E E1.
    set (detected := match array_text content with
                     | Some t => match jl t with Some v => v | None => PList [] end
                     | None => PList []
                     end).
    assert (Hd : Service.phi_identifier llm jl w = Ret (append_instances w detected))
      by (rewrite service_identifier_cases, E1; reflexivity).
    assert (Hlast : last_entry (ds_instances (append_instances w detected)) = Ret detected)
      by apply last_entry_after_append.
    exists (append_instances w detected), detected.
    split; [exact Hd|]. split; [exact Hlast|].
    intros answer E2. rewrite E. cbn [bind]. rewrite Hd. cbn [bind].
    rewrite (service_rationale_cases repr llm jl _ detected Hlast), E2. eauto.
  - intros H1 H2 H3. unfold extract, input_router.
    now rewrite !str_eqb_neq.
Qed.

Lemma flow_fails_in_extraction_or_service_witness :
  Service.flow_graph_invoke (fun _ => [])
    (fun prompt => if startswith prompt (py "You are a specialized PHI risk")
                   then Raise (OtherError (py "RateLimitError")) else Ret (py "[]"))
    (fun _ => None)
    (fun _ => Ret (py "Patient John Doe")) (fun _ => Ret []) (fun _ => Raise TypeError)
    (initial_state [] (py "png") []) = Raise (OtherError (py "RateLimitError")).
Proof.
  apply (proj1 (flow_fails_in_extraction_or_service (fun _ => [])
                  (fun prompt => if startswith prompt (py "You are a specialized PHI risk")
                                 then Raise (OtherError (py "RateLimitError")) else Ret (py "[]"))
                  (fun _ => None)
                  (fun _ => Ret (py "Patient John Doe")) (fun _ => Ret [])
                  (fun _ => Raise TypeError) (initial_state [] (py "png") []))).
  right. exists (mkDocState [] (py "png") (py "Patient John Doe") [] []).
  split; [reflexivity|]. right.
  exists (mkDocState [] (py "png") (py "Patient John Doe") [PList []] []), (PList []).
  split; [reflexivity|]. split; reflexivity.
Defined.

(** X12: given that [json.loads] parses a text that starts with the
    array-open character into a list or raises, [run_flow] returns whenever
    the extractor, Detection and the second call of the service return, and
    what it returns is the extracted text and the very entry Classification
    appended, which is a list: the [extract_dict] fallback is not taken. *)
Theorem run_flow_returns_classified_list :
  forall (unicode_lower : str -> str) (repr : pyval -> str)
         (llm_invoke : str -> outcome str)
         (json_loads : str -> option pyval)
         (image_to_string : list byte -> outcome str)
         (pdf_page_texts : list byte -> outcome (list (option str)))
         (read_csv : list byte -> outcome DataFrame)
         (file_bytes : list byte) (file_path : str) (exclude_filter : list str)
         (with_text detected_state : docState) (prior : pyval) (answer : str),
    arrays_parse_to_lists json_loads ->
    extract repr image_to_string pdf_page_texts read_csv
      (initial_state file_bytes (snd (get_file_data unicode_lower file_bytes file_path))
         exclude_filter) = Ret with_text ->
    Service.phi_identifier llm_invoke json_loads with_text = Ret detected_state ->
    last_entry (ds_instances detected_state) = Ret prior ->
    llm_invoke (rationale_prompt repr prior) = Ret answer ->
    exists classified,
      is_list classified = true /\
      Service.flow_graph_invoke repr llm_invoke json_loads image_to_string pdf_page_texts
        read_csv
        (initial_state file_bytes (snd (get_file_data unicode_lower file_bytes file_path))
           exclude_filter)
      = Ret (append_instances detected_state classified) /\
      Service.run_flow unicode_lower repr llm_invoke json_loads image_to_string
        pdf_page_texts read_csv file_bytes file_path exclude_filter
      = Ret (ds_text with_text, classified).
Proof.
  intros ul repr llm jl ocr pdf csv file_bytes file_path filter w st1 prior answer
    Hjson Hex Hd Hlast E2.
  destruct (service_identifier_returns llm jl w st1 Hd) as (content & E1 & Hst1).
  assert (Hprior : is_list prior = true).
  { rewrite Hst1 in Hlast. cbn [ds_instances append_instances] in Hlast.
    rewrite last_entry_after_append in Hlast. injection Hlast as <-.
    apply detected_is_list. exact Hjson. }
  set (classified := match array_text answer with
                     | Some t => match jl t with Some v => v | None => prior end
                     | None => prior
                     end).
  assert (Hc : is_list classified = true) by (apply classified_is_list; assumption).
  assert (Hr : Service.phi_rationale repr llm jl st1 = Ret (append_instances st1 classified))
    by (rewrite (service_rationale_cases repr llm jl st1 prior Hlast), E2; reflexivity).
  assert (Hflow : Service.flow_graph_invoke repr llm jl ocr pdf csv
                    (initial_state file_bytes (snd (get_file_data ul file_bytes file_path)) filter)
                  = Ret (append_instances st1 classified)).
  { unfold Service.flow_graph_invoke. rewrite Hex. cbn [bind]. rewrite Hd. exact Hr. }
  exists classified. split; [exact Hc|]. split; [exact Hflow|].
  unfold Service.run_flow. cbn [get_file_data snd] in *. rewrite Hflow. cbn [bind].
  cbn [ds_instances ds_text append_instances].
  rewrite last_entry_after_append. cbn [bind]. rewrite Hc.
  rewrite Hst1. reflexivity.
Qed.

Lemma run_flow_returns_classified_list_witness :
  exists classified,
    is_list classified = true /\
    Service.flow_graph_invoke (fun _ => []) (fun _ => Ret (py " [] "))
      (fun t => if str_eqb t (py "[]") then Some (PList []) else None)
      (fun _ => Ret (py "Patient John Doe")) (fun _ => Ret []) (fun _ => Raise TypeError)
      (initial_state [] (snd (get_file_data (fun s => s) [] (py "note.PNG"))) [])
    = Ret (append_instances
             (mkDocState [] (py "png") (py "Patient John Doe") [PList []] []) classified) /\
    Service.run_flow (fun s => s) (fun _ => []) (fun _ => Ret (py " [] "))
      (fun t => if str_eqb t (py "[]") then Some (PList []) else None)
      (fun _ => Ret (py "Patient John Doe")) (fun _ => Ret []) (fun _ => Raise TypeError)
      [] (py "note.PNG") []
    = Ret (ds_text (mkDocState [] (py "png") (py "Patient John Doe") [] []), classified).
Proof.
  apply (run_flow_returns_classified_list (fun s => s) (fun _ => [])
           (fun _ => Ret (py " [] "))
           (fun t => if str_eqb t (py "[]") then Some (PList []) else None)
           (fun _ => Ret (py "Patient John Doe")) (fun _ => Ret [])
           (fun _ => Raise TypeError) [] (py "note.PNG") []
           (mkDocState [] (py "png") (py "Patient John Doe") [] [])
           (mkDocState [] (py "png") (py "Patient John Doe") [PList []] [])
           (PList []) (py " [] ")).
  - intros t v _ H. destruct (str_eqb t (py "[]")); [|discriminate].
    injection H as <-. reflexivity.
  - reflexivity.
  - reflexivity.
  - reflexivity.
  - reflexivity.
Defined.

(** ** An array between prose *)

Lemma lstrip_app (pre rest : str) :
  lstrip pre <> [] -> lstrip (pre ++ rest) = lstrip pre ++ rest.
Proof.
  induction pre as [|c pre IH]; simpl; [congruence|].
  destruct (isspace c); [exact IH | reflexivity].
Qed.

Lemma lstrip_suffix_in (pre : str) (c : char) : In c (lstrip pre) -> In c pre.
Proof.
  destruct (lstrip_decompose pre) as (w & Hw & _). intros H.
  rewrite Hw. apply in_or_app. now right.
Qed.

Section BetweenProse.

Variables (pre mid post : str).
Hypothesis no_open_before : ~ In 91%N pre.
Hypothesis no_close_after : ~ In 93%N post.
Hypothesis prose_before : lstrip pre <> [].

Lemma between_prose_not_leading :
  startswith (strip (pre ++ [91%N] ++ mid ++ [93%N] ++ post)) [91%N] = false.
Proof.
  unfold strip. rewrite lstrip_app by exact prose_before.
  destruct (lstrip_head pre) as [E | (c & t & E & Hc)]; [contradiction|].
  rewrite E. cbn [app]. rewrite rstrip_cons_nonspace by exact Hc.
  simpl. destruct (N.eqb_spec c 91%N) as [Heq | Hne]; [|reflexivity].
  exfalso. apply no_open_before. apply lstrip_suffix_in. rewrite E, Heq. now left.
Qed.

Lemma between_prose_find :
  find (pre ++ [91%N] ++ mid ++ [93%N] ++ post) [91%N] 0 = len pre.
Proof.
  set (content := pre ++ [91%N] ++ mid ++ [93%N] ++ post).
  assert (Ho : occurs_at content [91%N] (len pre)).
  { exists pre, (mid ++ [93%N] ++ post). split; reflexivity. }
  pose proof (len_nonneg pre) as Hl.
  destruct (find_spec content [91%N] 0 ltac:(lia)) as [[_ Hnone] | (Hge & Hoq & Hleft)].
  - exfalso. apply (Hnone (len pre)); [lia | exact Ho].
  - destruct (Z.lt_trichotomy (find content [91%N] 0) (len pre)) as [Hlt | [Heq | Hgt]].
    + exfalso. apply occurs_char_nth in Hoq as [_ Hn]. unfold content in *.
      rewrite nth_error_app1 in Hn by (unfold len in Hlt; lia).
      apply no_open_before. eapply nth_error_In; exact Hn.
    + exact Heq.
    + exfalso. apply (Hleft (len pre)); [lia | exact Ho].
Qed.

Lemma between_prose_rfind :
  rfind (pre ++ [91%N] ++ mid ++ [93%N] ++ post) [93%N] = len pre + 1 + len mid.
Proof.
  set (content := pre ++ [91%N] ++ mid ++ [93%N] ++ post).
  assert (Ho : occurs_at content [93%N] (len pre + 1 + len mid)).
  { exists (pre ++ [91%N] ++ mid), post. split.
    - unfold content. now rewrite <- !app_assoc.
    - rewrite !len_app. change (len [91%N]) with 1. lia. }
  destruct (rfind_spec content [93%N]) as [[_ Hnone] | (Hoq & Hright)].
  - exfalso. exact (Hnone _ Ho).
  - destruct (Z.lt_trichotomy (rfind content [93%N]) (len pre + 1 + len mid))
      as [Hlt | [Heq | Hgt]].
    + exfalso. exact (Hright _ Hlt Ho).
    + exact Heq.
    + exfalso. pose proof (occurs_at_bounds _ _ _ Hoq) as Hb.
      apply occurs_char_nth in Hoq as [_ Hn].
      remember (Z.to_nat (rfind content [93%N])) as n eqn:En.
      assert (Hn' : (length (pre ++ [91%N] ++ mid ++ [93%N]) <= n)%nat)
        by (rewrite !length_app; unfold len in Hgt; simpl; lia).
      unfold content in Hn.
      replace (pre ++ [91%N] ++ mid ++ [93%N] ++ post)
        with ((pre ++ [91%N] ++ mid ++ [93%N]) ++ post) in Hn
        by now rewrite <- !app_assoc.
      rewrite nth_error_app2 in Hn by exact Hn'.
      apply no_close_after. eapply nth_error_In; exact Hn.
Qed.

(** An array that follows some prose and is followed by any text without
    an array-close character is what is handed to [json.loads]. *)
Lemma array_text_between_prose :
  array_text (pre ++ [91%N] ++ mid ++ [93%N] ++ post) = Some ([91%N] ++ mid ++ [93%N]).
Proof.
  unfold array_text. change (py "[") with [91%N]. change (py "]") with [93%N].
  rewrite between_prose_not_leading, between_prose_find, between_prose_rfind.
  pose proof (len_nonneg pre). pose proof (len_nonneg mid).
  replace (len pre >=? 0) with true by (symmetry; apply Z.geb_le; lia).
  replace (len pre + 1 + len mid + 1 >? len pre) with true
    by (symmetry; rewrite Z.gtb_ltb; apply Z.ltb_lt; lia).
  cbn [andb]. f_equal.
  replace (len pre + 1 + len mid + 1) with (len pre + len ([91%N] ++ mid ++ [93%N]))
    by (rewrite !len_app; change (len [91%N]) with 1; change (len [93%N]) with 1; lia).
  apply slice_at_occurrence. exists pre, post. split; [|reflexivity].
  now rewrite <- !app_assoc.
Qed.

End BetweenProse.

(** X13: when the service wraps its array in prose, some text that is not
    all whitespace and holds no array-open character before it, and any
    text without an array-close character after it, either stage parses
    exactly the array: Detection appends what [json.loads] gives for it
    (the empty list when it raises), Classification likewise (the entry
    before when it raises). *)
Theorem array_between_prose_is_parsed :
  forall (repr : pyval -> str) (llm_invoke : str -> str)
         (json_loads : str -> option pyval) (doc_state : docState)
         (pre mid post : str),
    ~ In 91%N pre -> ~ In 93%N post -> lstrip pre <> [] ->
    (llm_invoke (identifier_prompt doc_state) = pre ++ py "[" ++ mid ++ py "]" ++ post ->
     phi_identifier llm_invoke json_loads doc_state =
     append_instances doc_state
       match json_loads (py "[" ++ mid ++ py "]") with
       | Some v => v
       | None => PList []
       end)
    /\
    (forall prior,
       last_entry (ds_instances doc_state) = Ret prior ->
       llm_invoke (rationale_prompt repr prior) = pre ++ py "[" ++ mid ++ py "]" ++ post ->
       phi_rationale repr llm_invoke json_loads doc_state =
       Ret (append_instances doc_state
              match json_loads (py "[" ++ mid ++ py "]") with
              | Some v => v
              | None => prior
              end)).
Proof.
  intros repr llm jl st pre mid post H1 H2 H3.
  change (py "[") with [91%N]. change (py "]") with [93%N]. split.
  - intros Hc. rewrite phi_identifier_appends, Hc.
    now rewrite (array_text_between_prose pre mid post H1 H2 H3).
  - intros prior Hlast Hc. rewrite (phi_rationale_appends repr llm jl st prior Hlast), Hc.
    now rewrite (array_text_between_prose pre mid post H1 H2 H3).
Qed.

Lemma array_between_prose_is_parsed_witness :
  phi_identifier (fun _ => py "Here you go: [] Done.")
    (fun t => if str_eqb t (py "[]") then Some (PList []) else None)
    (mkDocState [] (py "png") (py "Patient John Doe") [] [])
  = append_instances (mkDocState [] (py "png") (py "Patient John Doe") [] [])
      match (fun t => if str_eqb t (py "[]") then Some (PList []) else None)
              (py "[" ++ [] ++ py "]") with
      | Some v => v
      | None => PList []
      end.
Proof.
  apply (proj1 (array_between_prose_is_parsed (fun _ => [])
                  (fun _ => py "Here you go: [] Done.")
                  (fun t => if str_eqb t (py "[]") then Some (PList []) else None)
                  (mkDocState [] (py "png") (py "Patient John Doe") [] [])
                  (py "Here you go: ") [] (py " Done.")
                  ltac:(vm_compute; intuition discriminate)
                  ltac:(vm_compute; intuition discriminate)
                  ltac:(discriminate))).
  reflexivity.
Defined.

(** ** Cells of a table in its text *)

Lemma occurs_inside (a b c v : str) :
  (exists p, occurs_at b v p) -> exists p, occurs_at (a ++ b ++ c) v p.
Proof.
  intros (p & pre & post & -> & _).
  exists (len (a ++ pre)), (a ++ pre), (post ++ c). split; [|reflexivity].
  now rewrite <- !app_assoc.
Qed.

Lemma occurs_itself (v : str) : exists p, occurs_at v v p.
Proof. exists 0, [], []. split; [now rewrite app_nil_r | reflexivity]. Qed.

Lemma occurs_in_concat (l : list str) (x v : str) :
  In x l -> (exists p, occurs_at x v p) -> exists p, occurs_at (concat l) v p.
Proof.
  intros Hin Ho. apply in_split in Hin as (l1 & l2 & ->).
  rewrite concat_app. cbn [concat]. now apply occurs_inside.
Qed.

(** X14: in the text of a table every cell is on a line of its own,
    "column: value", and so the form in which the resolver looks a cell up,
    its stripped string form, occurs in the text. *)
Theorem csv_cells_are_locatable :
  forall (repr : pyval -> str) (df : DataFrame),
    rectangular df ->
    forall (i j : nat) (label : pyval) (values : list pyval) (column : str) (v : pyval),
      nth_error (df_iterrows df) i = Some (label, values) ->
      nth_error (df_columns df) j = Some column ->
      nth_error values j = Some v ->
      (exists p, occurs_at (csv_text repr df)
                   (column ++ py ": " ++ str_of repr v ++ [newline]) p) /\
      (exists p, occurs_at (csv_text repr df) (strip (str_of repr v)) p).
Proof.
  intros repr df Hrect i j label values column v Hi Hj Hv.
  assert (Hline : exists p, occurs_at (csv_text repr df)
                              (column ++ py ": " ++ str_of repr v ++ [newline]) p).
  { unfold csv_text. rewrite (csv_text_blocks repr _ _ Hrect). cbn [app].
    eapply occurs_in_concat.
    - apply in_map. eapply nth_error_In. exact Hi.
    - cbn [fst snd]. unfold block.
      assert (Hin : In (column ++ py ": " ++ str_of repr v ++ [newline])
                      (map (fun j => nth j (df_columns df) [] ++ py ": " ++
                                     str_of repr (nth j values PNone) ++ [newline])
                         (seq 0 (length (df_columns df))))).
      { apply in_map_iff. exists j. split.
        - erewrite (nth_error_nth _ _ _ Hj), (nth_error_nth _ _ _ Hv). reflexivity.
        - apply in_seq. split; [lia|]. simpl. apply nth_error_Some. congruence. }
      apply in_split in Hin as (l1 & l2 & ->).
      rewrite concat_app. cbn [concat].
      exists (len (py "Index: " ++ str_of repr label ++ [newline] ++ concat l1)),
        (py "Index: " ++ str_of repr label ++ [newline] ++ concat l1),
        (concat l2 ++ [newline]).
      split; [|reflexivity]. now rewrite <- !app_assoc. }
  split; [exact Hline|].
  destruct Hline as (p & pre & post & E & _).
  destruct (strip_decompose (str_of repr v)) as (w1 & w2 & Hs & _ & _).
  rewrite Hs in E.
  exists (len (pre ++ column ++ py ": " ++ w1)), (pre ++ column ++ py ": " ++ w1),
    (w2 ++ [newline] ++ post).
  split; [|reflexivity]. rewrite E. now rewrite <- !app_assoc.
Qed.

Lemma csv_cells_are_locatable_witness :
  (exists p, occurs_at (csv_text (fun _ => []) labelled_table)
               (py "b" ++ py ": " ++ str_of (fun _ => []) (PStr (py "cow")) ++ [newline]) p) /\
  (exists p, occurs_at (csv_text (fun _ => []) labelled_table)
               (strip (str_of (fun _ => []) (PStr (py "cow")))) p).
Proof.
  apply (csv_cells_are_locatable (fun _ => []) labelled_table ltac:(repeat constructor)
           1%nat 1%nat (PInt 8) [PStr (py "orange"); PStr (py "cow")] (py "b")
           (PStr (py "cow")));
    reflexivity.
Defined.

(** ** [extract_dict] *)

Lemma splitlines_from_app (l rest : str) : forall line,
  Forall (fun c => is_linebreak c = false) l ->
  splitlines_from (l ++ rest) line = splitlines_from rest (line ++ l).
Proof.
  induction l as [|c l IH]; intros line Hl; simpl.
  - now rewrite app_nil_r.
  - inversion Hl as [|? ? Hc Hl']; subst. rewrite Hc, IH by exact Hl'.
    now rewrite <- app_assoc.
Qed.

(** Lines joined by line feeds split back into themselves, when none of
    them holds a line boundary and the last one is not empty. *)
Lemma splitlines_join (parts : list str) :
  Forall (Forall (fun c => is_linebreak c = false)) parts ->
  last parts [] <> [] ->
  splitlines (join_char newline parts) = parts.
Proof.
  unfold splitlines. induction parts as [|x parts IH]; intros Hf Hl; [contradiction|].
  inversion Hf as [|? ? Hx Hf']; subst.
  destruct parts as [|y parts].
  - cbn [join_char]. rewrite <- (app_nil_r x) at 1.
    rewrite splitlines_from_app by exact Hx. simpl in *.
    destruct x; [contradiction | reflexivity].
  - assert (E : join_char newline (x :: y :: parts)
                = x ++ newline :: join_char newline (y :: parts)) by reflexivity.
    rewrite E, splitlines_from_app by exact Hx.
    cbn [app]. change (splitlines_from (newline :: ?s) x) with (x :: splitlines_from s []).
    f_equal. apply IH; auto.
Qed.

Lemma slice_middle {A : Type} (x y : A) (body : list A) :
  slice (x :: body ++ [y]) 1 (-1) = body.
Proof.
  unfold slice, clip, len. cbn [length]. rewrite length_app. cbn [length].
  replace (1 <? 0) with false by reflexivity.
  replace (-1 <? 0) with true by reflexivity.
  replace (Z.to_nat (Z.min 1 (Z.of_nat (S (length body + 1))))) with 1%nat by lia.
  replace (Z.to_nat (Z.max 0 (Z.of_nat (S (length body + 1)) + -1)))
    with (S (length body)) by lia.
  cbn [skipn]. replace (S (length body) - 1)%nat with (length body + 0)%nat by lia.
  rewrite firstn_app_2. simpl. apply app_nil_r.
Qed.

(** X15: of a text of three lines or more, [extract_dict] parses the lines
    between the first and the last, joined without separator and with every
    single quote turned into a double quote: for a first line, body lines
    and a non-empty last line joined by line feeds, none of them holding a
    line boundary, it returns what [json.loads] gives for the body. *)
Theorem extract_dict_parses_the_middle_lines :
  forall (json_loads : str -> option pyval) (first last_line : str) (body : list str),
    Forall (fun c => is_linebreak c = false) first ->
    Forall (Forall (fun c => is_linebreak c = false)) body ->
    Forall (fun c => is_linebreak c = false) last_line ->
    last_line <> [] ->
    extract_dict json_loads (PStr (join_char newline (first :: body ++ [last_line])))
    = json_loads (replace_char (concat body) 39%N dquote).
Proof.
  intros jl first last_line body Hf Hb Hl Hne. unfold extract_dict.
  rewrite splitlines_join.
  - now rewrite slice_middle.
  - constructor; [exact Hf|]. apply Forall_app. split; [exact Hb|].
    constructor; [exact Hl | constructor].
  - change (last (first :: body ++ [last_line]) [])
      with (match body ++ [last_line] with [] => first | _ => last (body ++ [last_line]) [] end).
    destruct (body ++ [last_line]) eqn:E; [destruct body; discriminate|].
    rewrite <- E, last_last. exact Hne.
Qed.

Lemma extract_dict_parses_the_middle_lines_witness :
  extract_dict (fun t => if str_eqb t ([91%N; dquote] ++ py "a" ++ [dquote; 93%N])
                         then Some (PList [PStr (py "a")]) else None)
    (PStr (join_char newline (py "```json" :: [py "['a'"; py "]"] ++ [py "```"])))
  = (fun t => if str_eqb t ([91%N; dquote] ++ py "a" ++ [dquote; 93%N])
              then Some (PList [PStr (py "a")]) else None)
      (replace_char (concat [py "['a'"; py "]"]) 39%N dquote).
Proof.
  apply (extract_dict_parses_the_middle_lines
           (fun t => if str_eqb t ([91%N; dquote] ++ py "a" ++ [dquote; 93%N])
                     then Some (PList [PStr (py "a")]) else None)
           (py "```json") (py "```") [py "['a'"; py "]"]).
  - repeat constructor.
  - repeat constructor.
  - repeat constructor.
  - discriminate.
Defined.

(** ** The summary of a result *)

Section StatisticsFacts.

Variable float_key_eqb : pyval -> pyval -> bool.

Lemma key_eqb_str (a b : str) :
  key_eqb float_key_eqb (PStr a) (PStr b) = true <-> a = b.
Proof. simpl. apply str_eqb_eq. Qed.

Lemma set_count_spec (s : str) (m : Z) : forall r,
  rows_wf r ->
  rows_wf (set_count float_key_eqb r (PStr s) m) /\
  forall k n, In (k, n) (set_count float_key_eqb r (PStr s) m) <->
              (k = PStr s /\ n = m) \/ (k <> PStr s /\ In (k, n) r).
Proof.
  induction r as [|[k0 n0] r IH]; intros [Hstr Hnd].
  - split.
    + split; [repeat constructor; now exists s | repeat constructor; intros []].
    + intros k n. simpl. split.
      * intros [H | []]. injection H as <- <-. now left.
      * intros [[-> ->] | [_ []]]. now left.
  - inversion Hstr as [|? ? [s0 Hk0] Hstr']; subst. simpl in Hk0. subst k0.
    inversion Hnd as [|? ? Hnot Hnd']; subst.
    cbn [set_count]. destruct (key_eqb float_key_eqb (PStr s0) (PStr s)) eqn:E.
    + apply key_eqb_str in E. subst s0. split.
      * split; [constructor; [now exists s | exact Hstr'] | exact Hnd].
      * intros k n. simpl. split.
        -- intros [H | H]; [injection H as <- <-; now left|].
           right. split; [|now right]. intros ->. apply Hnot.
           apply in_map_iff. now exists (PStr s, n).
        -- intros [[-> ->] | [Hne [H | H]]]; [now left | |now right].
           injection H as <- _. congruence.
    + assert (Hne : s0 <> s).
      { intros ->. rewrite (proj2 (key_eqb_str s s) eq_refl) in E. discriminate. }
      destruct (IH (conj Hstr' Hnd')) as [[Hstr'' Hnd''] Hin]. split.
      * split; [constructor; [now exists s0 | exact Hstr'']|].
        cbn [map fst]. constructor; [|exact Hnd''].
        intros Hk. apply in_map_iff in Hk as ([k n] & Hk & Hkn). simpl in Hk. subst k.
        apply Hin in Hkn as [[Heq _] | [_ Hkn]]; [congruence|].
        apply Hnot. apply in_map_iff. now exists (PStr s0, n).
      * intros k n. simpl. rewrite Hin. split.
        -- intros [H | [H | [H1 H2]]]; auto.
           injection H as <- <-. right. split; [congruence | now left].
        -- intros [H | [H1 [H2 | H2]]]; auto.
Qed.

Lemma get_count_spec (s : str) : forall r,
  rows_wf r ->
  (In (PStr s, get_count float_key_eqb r (PStr s)) r) \/
  (get_count float_key_eqb r (PStr s) = 0 /\ forall n, ~ In (PStr s, n) r).
Proof.
  induction r as [|[k0 n0] r IH]; intros [Hstr Hnd].
  - right. split; [reflexivity | intros n []].
  - inversion Hstr as [|? ? [s0 Hk0] Hstr']; subst. simpl in Hk0. subst k0.
    inversion Hnd as [|? ? Hnot Hnd']; subst.
    cbn [get_count]. destruct (key_eqb float_key_eqb (PStr s0) (PStr s)) eqn:E.
    + apply key_eqb_str in E. subst s0. left. now left.
    + assert (Hne : s0 <> s).
      { intros ->. rewrite (proj2 (key_eqb_str s s) eq_refl) in E. discriminate. }
      destruct (IH (conj Hstr' Hnd')) as [H | [H0 Hno]].
      * left. now right.
      * right. split; [exact H0|]. intros n [H | H]; [congruence | exact (Hno n H)].
Qed.

Lemma rows_wf_unique (r : list (pyval * Z)) (k : pyval) (n m : Z) :
  rows_wf r -> In (k, n) r -> In (k, m) r -> n = m.
Proof.
  intros [_ Hnd]. induction r as [|[k0 n0] r IH]; intros Hn Hm; [contradiction|].
  inversion Hnd as [|? ? Hnot Hnd']; subst.
  destruct Hn as [Hn | Hn], Hm as [Hm | Hm].
  - congruence.
  - injection Hn as -> _. exfalso. apply Hnot. apply in_map_iff. now exists (k, m).
  - injection Hm as -> _. exfalso. apply Hnot. apply in_map_iff. now exists (k, n).
  - now apply IH.
Qed.

Lemma occurrences_nonneg (t : str) (l : list dict) : 0 <= occurrences t l.
Proof. apply len_nonneg. Qed.

Lemma occurrences_snoc (t s : str) (l : list dict) (d : dict) :
  phi_type_of d = PStr s ->
  occurrences t (l ++ [d]) = occurrences t l + (if str_eqb s t then 1 else 0).
Proof.
  intros Hd. unfold occurrences. rewrite filter_app, len_app. f_equal.
  simpl. rewrite Hd. destruct (str_eqb s t); reflexivity.
Qed.

Lemma count_instance_step (r : list (pyval * Z)) (counted : list dict) (d : dict) :
  rows_count r counted -> is_str (phi_type_of d) ->
  exists r', count_instance float_key_eqb r d = Ret r' /\ rows_count r' (counted ++ [d]).
Proof.
  intros (Hwf & Hin & Hall) [s Hs]. unfold count_instance. fold (phi_type_of d).
  rewrite Hs. cbn [hashable]. eexists. split; [reflexivity|].
  assert (Hget : get_count float_key_eqb r (PStr s) = occurrences s counted).
  { destruct (get_count_spec s r Hwf) as [H | [H0 Hno]].
    - destruct (Hin _ _ H) as (t & Ht & Hn & _). injection Ht as <-. exact Hn.
    - rewrite H0. pose proof (occurrences_nonneg s counted) as Hge.
      destruct (Z.eq_dec (occurrences s counted) 0) as [E | E]; [now rewrite E|].
      exfalso. apply (Hno (occurrences s counted)). apply Hall. lia. }
  rewrite Hget.
  destruct (set_count_spec s (occurrences s counted + 1) r Hwf) as [Hwf' Hin'].
  pose proof (occurrences_nonneg s counted) as Hge.
  split; [exact Hwf'|]. split.
  - intros k n Hkn. apply Hin' in Hkn as [[-> ->] | [Hne Hkn]].
    + exists s. rewrite (occurrences_snoc s s counted d Hs).
      rewrite (proj2 (str_eqb_eq s s) eq_refl). repeat split; lia.
    + destruct (Hin _ _ Hkn) as (t & -> & -> & Hpos). exists t.
      rewrite (occurrences_snoc t s counted d Hs).
      rewrite str_eqb_neq by congruence. repeat split; lia.
  - intros t Hpos. apply Hin'. rewrite (occurrences_snoc t s counted d Hs) in *.
    destruct (str_eqb s t) eqn:E.
    + apply str_eqb_eq in E. subst t. now left.
    + right. split.
      * intros H. injection H as ->. rewrite (proj2 (str_eqb_eq s s) eq_refl) in E.
        discriminate.
      * rewrite Z.add_0_r in *. now apply Hall.
Qed.

Lemma count_instances_spec (l : list dict) : forall r counted,
  rows_count r counted -> Forall (fun d => is_str (phi_type_of d)) l ->
  exists r', count_instances float_key_eqb r l = Ret r' /\ rows_count r' (counted ++ l).
Proof.
  induction l as [|d l IH]; intros r counted Hr Hl.
  - exists r. split; [reflexivity | now rewrite app_nil_r].
  - inversion Hl as [|? ? Hd Hl']; subst.
    destruct (count_instance_step r counted d Hr Hd) as (r1 & E1 & Hr1).
    destruct (IH r1 (counted ++ [d]) Hr1 Hl') as (r' & E & Hr').
    exists r'. cbn [count_instances]. rewrite E1. cbn [bind].
    split; [exact E|]. now rewrite <- app_assoc in Hr'.
Qed.

End StatisticsFacts.

(** X16: for findings whose PHI types are all strings, the summary shows
    the number of findings as the total and the number of rows as the
    number of types; no type is listed twice; every listed type comes with
    the number of findings of that type, which is positive; and every type
    some finding has is listed. *)
Theorem statistics_count_findings_by_type :
  forall (float_key_eqb : pyval -> pyval -> bool) (phi_instances : list dict),
    phi_instances <> [] ->
    Forall (fun d => is_str (phi_type_of d)) phi_instances ->
    exists rows,
      display_phi_statistics float_key_eqb phi_instances
      = Ret (Some (mkSummary (len phi_instances) (len rows) rows)) /\
      NoDup (map fst rows) /\
      (forall k n, In (k, n) rows ->
         exists t, k = PStr t /\ n = occurrences t phi_instances /\ 0 < n) /\
      (forall t, 0 < occurrences t phi_instances ->
         In (PStr t, occurrences t phi_instances) rows).
Proof.
  intros fk l Hne Hl.
  destruct (count_instances_spec fk l [] []) as (rows & E & (Hwf & Hin & Hall)); auto.
  { split; [split; constructor|]. split; [intros k n [] |].
    intros t Ht. unfold occurrences in Ht. simpl in Ht. unfold len in Ht. simpl in Ht. lia. }
  exists rows. split.
  - unfold display_phi_statistics. destruct l as [|d l]; [congruence|].
    rewrite E. reflexivity.
  - destruct Hwf as [_ Hnd]. auto.
Qed.

Lemma statistics_count_findings_by_type_witness :
  exists rows,
    display_phi_statistics (fun _ _ => false)
      [[(py "type", PStr (py "Names"))]; [(py "value", PStr (py "x"))];
       [(py "PHI type", PStr (py "Names")); (py "type", PStr (py "name"))]]
    = Ret (Some (mkSummary 3 (len rows) rows)) /\
    NoDup (map fst rows) /\
    (forall k n, In (k, n) rows ->
       exists t, k = PStr t /\
         n = occurrences t
               [[(py "type", PStr (py "Names"))]; [(py "value", PStr (py "x"))];
                [(py "PHI type", PStr (py "Names")); (py "type", PStr (py "name"))]] /\
         0 < n) /\
    (forall t,
       0 < occurrences t
             [[(py "type", PStr (py "Names"))]; [(py "value", PStr (py "x"))];
              [(py "PHI type", PStr (py "Names")); (py "type", PStr (py "name"))]] ->
       In (PStr t,
           occurrences t
             [[(py "type", PStr (py "Names"))]; [(py "value", PStr (py "x"))];
              [(py "PHI type", PStr (py "Names")); (py "type", PStr (py "name"))]]) rows).
Proof.
  apply (statistics_count_findings_by_type (fun _ _ => false)
           [[(py "type", PStr (py "Names"))]; [(py "value", PStr (py "x"))];
            [(py "PHI type", PStr (py "Names")); (py "type", PStr (py "name"))]]).
  - discriminate.
  - repeat constructor; eexists; reflexivity.
Defined.

Example statistics_example :
  display_phi_statistics (fun _ _ => false)
    [[(py "type", PStr (py "Names"))]; [(py "value", PStr (py "x"))];
     [(py "PHI type", PStr (py "Names")); (py "type", PStr (py "name"))]]
  = Ret (Some (mkSummary 3 2 [(PStr (py "Names"), 2); (PStr (py "Unknown"), 1)]))
  /\ display_phi_statistics (fun _ _ => false) [] = Ret None
  /\ display_phi_statistics (fun _ _ => false) [[(py "type", PList [])]] = Raise TypeError.
Proof. repeat split. Qed.

(** ** The PDF extractor *)

Lemma pdf_pages_append (pages : list (option str)) : forall text,
  fold_left (fun text page => text ++ match page with Some t => t | None => [] end)
    pages text
  = text ++ concat (map (fun page => match page with Some t => t | None => [] end) pages).
Proof.
  induction pages as [|page pages IH]; intros text; simpl.
  - now rewrite app_nil_r.
  - now rewrite IH, app_assoc.
Qed.

(** X17: the text [pdf_parser_tool] writes is the texts of the pages in
    page order with nothing between them, a page without text adding
    nothing; so the text of every page occurs in it, and its length is the
    sum of theirs.  Nothing else of the state changes. *)
Theorem pdf_text_is_pages_in_order :
  forall (pdf_page_texts : list byte -> outcome (list (option str)))
         (doc_state after : docState),
    pdf_parser_tool pdf_page_texts doc_state = Ret after ->
    exists pages,
      pdf_page_texts (ds_input doc_state) = Ret pages /\
      ds_text after =
        concat (map (fun page => match page with Some t => t | None => [] end) pages) /\
      (forall t, In (Some t) pages -> exists p, occurs_at (ds_text after) t p) /\
      len (ds_text after) =
        fold_right Z.add 0
          (map (fun page => match page with Some t => len t | None => 0 end) pages) /\
      after = set_text doc_state (ds_text after).
Proof.
  intros pdf st after H. unfold pdf_parser_tool in H.
  destruct (pdf (ds_input st)) as [pages| |]; simpl in H; try discriminate.
  injection H as <-. exists pages. cbn [ds_text set_text].
  rewrite pdf_pages_append. cbn [app]. repeat split.
  - intros t Hin. eapply occurs_in_concat; [|apply occurs_itself].
    apply in_map_iff. exists (Some t). auto.
  - clear. induction pages as [|[t|] pages IH]; cbn [map concat fold_right].
    + reflexivity.
    + now rewrite len_app, IH.
    + now rewrite len_app, IH.
Qed.

Lemma pdf_text_is_pages_in_order_witness :
  exists pages,
    (fun _ : list byte => Ret [Some (py "Patient "); None; Some (py "John Doe")]) []
    = Ret pages /\
    py "Patient John Doe" =
      concat (map (fun page => match page with Some t => t | None => [] end) pages) /\
    (forall t, In (Some t) pages -> exists p, occurs_at (py "Patient John Doe") t p) /\
    len (py "Patient John Doe") =
      fold_right Z.add 0
        (map (fun page => match page with Some t => len t | None => 0 end) pages) /\
    mkDocState [] (py "pdf") (py "Patient John Doe") [] [] =
    set_text (mkDocState [] (py "pdf") [] [] []) (py "Patient John Doe").
Proof.
  apply (pdf_text_is_pages_in_order
           (fun _ => Ret [Some (py "Patient "); None; Some (py "John Doe")])
           (mkDocState [] (py "pdf") [] [] [])
           (mkDocState [] (py "pdf") (py "Patient John Doe") [] [])).
  reflexivity.
Defined.

(** ** A run on responses that cannot be parsed *)

(** X18: when the extractor returns and the response of Classification
    cannot be parsed into an array, [run_flow] returns the extracted text
    with the findings of Detection as they are; when the response of
    Detection cannot be parsed either, these are the empty list. *)
Theorem run_flow_falls_back_to_detection :
  forall (unicode_lower : str -> str) (repr : pyval -> str) (llm_invoke : str -> str)
         (json_loads : str -> option pyval)
         (image_to_string : list byte -> outcome str)
         (pdf_page_texts : list byte -> outcome (list (option str)))
         (read_csv : list byte -> outcome DataFrame)
         (file_bytes : list byte) (file_path : str) (exclude_filter : list str)
         (with_text : docState),
    arrays_parse_to_lists json_loads ->
    extract repr image_to_string pdf_page_texts read_csv
      (initial_state file_bytes (snd (get_file_data unicode_lower file_bytes file_path))
         exclude_filter) = Ret with_text ->
    exists detected,
      phi_identifier llm_invoke json_loads with_text = append_instances with_text detected /\
      (unparseable json_loads (llm_invoke (identifier_prompt with_text)) ->
       detected = PList []) /\
      (unparseable json_loads (llm_invoke (rationale_prompt repr detected)) ->
       run_flow unicode_lower repr llm_invoke json_loads image_to_string pdf_page_texts
         read_csv file_bytes file_path exclude_filter
       = Ret (ds_text with_text, detected)).
Proof.
  intros ul repr llm jl ocr pdf csv file_bytes file_path filter w Hjson Hex.
  rewrite phi_identifier_appends.
  set (detected := match array_text _ with Some _ => _ | None => _ end).
  assert (Hd : is_list detected = true) by (apply detected_is_list; exact Hjson).
  exists detected. split; [reflexivity|]. split.
  - intros Hu. unfold unparseable in Hu. unfold detected.
    destruct (array_text _); [rewrite Hu|]; reflexivity.
  - intros Hu. unfold run_flow, flow_graph_invoke. cbn [get_file_data snd] in *.
    rewrite Hex. cbn [bind]. rewrite phi_identifier_appends. fold detected.
    rewrite (phi_rationale_appends repr llm jl (append_instances w detected) detected)
      by apply last_entry_after_append.
    unfold unparseable in Hu.
    replace (match array_text (llm (rationale_prompt repr detected)) with
             | Some t => match jl t with Some v => v | None => detected end
             | None => detected
             end) with detected
      by (destruct (array_text (llm (rationale_prompt repr detected)));
          [rewrite Hu|]; reflexivity).
    cbn [bind ds_instances ds_text append_instances].
    rewrite last_entry_after_append. cbn [bind]. now rewrite Hd.
Qed.

Lemma run_flow_falls_back_to_detection_witness :
  run_flow (fun s => s) (fun _ => []) (fun _ => py "sorry") (fun _ => None)
    (fun _ => Ret (py "Patient John Doe")) (fun _ => Ret []) (fun _ => Raise TypeError)
    [] (py "note.png") []
  = Ret (py "Patient John Doe", PList []).
Proof.
  destruct (run_flow_falls_back_to_detection (fun s => s) (fun _ => []) (fun _ => py "sorry")
              (fun _ => None) (fun _ => Ret (py "Patient John Doe")) (fun _ => Ret [])
              (fun _ => Raise TypeError) [] (py "note.png") []
              (mkDocState [] (py "png") (py "Patient John Doe") [] [])
              ltac:(intros t v _ H; discriminate) eq_refl)
    as (detected & _ & Hempty & Hrun).
  rewrite (Hempty I) in Hrun. exact (Hrun I).
Defined.

(** ** The resolver ends *)

Lemma collect_from_returns_or_raises (repr : pyval -> str) (text : str) :
  forall (l : list pyval) (acc : list Span),
    accepted_ok text acc ->
    (exists spans, collect_from repr text acc l = Ret spans) \/
    collect_from repr text acc l = Raise TypeError.
Proof.
  induction l as [|x l IH]; intros acc Hok; [left; eexists; reflexivity|].
  cbn [collect_from].
  assert (Hx : (exists acc', resolve_instance repr text acc x = Ret acc' /\
                             accepted_ok text acc') \/
               resolve_instance repr text acc x = Raise TypeError).
  { destruct x; cbn [resolve_instance]; auto.
    - destruct (find s (py "value") 0 =? -1); [left; eauto | now right].
    - destruct (existsb is_value_key l0); [now right | left; eauto].
    - left. apply resolve_dict_ok. exact Hok. }
  destruct Hx as [(acc' & E & Hok') | E]; rewrite E; cbn [bind]; [|now right].
  apply IH. exact Hok'.
Qed.

(** X19: on every text and every findings argument whose findings have
    fields that [str] converts (strings, [None], bools, floats and integers
    within the interpreter's digit limit), [highlight_phi_instances] either
    returns a text or raises a [TypeError]: the search loops end, and no
    other error comes out of it. *)
Theorem highlight_returns_or_raises_type_error :
  forall (repr : pyval -> str) (text : str) (phi_instances : pyval),
    fields_convert phi_instances ->
    (exists highlighted_text,
       highlight_phi_instances repr text phi_instances = Ret highlighted_text) \/
    highlight_phi_instances repr text phi_instances = Raise TypeError.
Proof.
  intros repr text v _. unfold highlight_phi_instances.
  destruct (negb (truthy v) || negb (is_list v)); [left; eauto|].
  destruct v; try (left; eexists; reflexivity).
  unfold collect.
  destruct (collect_from_returns_or_raises repr text l [] (accepted_ok_nil text))
    as [[spans E] | E]; rewrite E; cbn [bind]; [left; eauto | now right].
Qed.

Lemma highlight_returns_or_raises_type_error_witness :
  (exists highlighted_text,
     highlight_phi_instances (fun _ => []) (py "Patient John Doe, 42")
       (PList [PDict [(py "value", PStr (py "John Doe")); (py "type", PStr (py "Names"))];
               PDict [(py "value", PInt 42)]; PInt 7])
     = Ret highlighted_text) \/
  highlight_phi_instances (fun _ => []) (py "Patient John Doe, 42")
    (PList [PDict [(py "value", PStr (py "John Doe")); (py "type", PStr (py "Names"))];
            PDict [(py "value", PInt 42)]; PInt 7])
  = Raise TypeError.
Proof.
  apply (highlight_returns_or_raises_type_error (fun _ => []) (py "Patient John Doe, 42")
           (PList [PDict [(py "value", PStr (py "John Doe")); (py "type", PStr (py "Names"))];
                   PDict [(py "value", PInt 42)]; PInt 7])).
  intros l d k v Hl Hd Hk. injection Hl as <-.
  destruct Hd as [Hd | [Hd | [Hd | []]]]; try discriminate; injection Hd as <-.
  - destruct Hk as [Hk | [Hk | []]]; injection Hk as _ <-; exact I.
  - destruct Hk as [Hk | []]; injection Hk as _ <-. vm_compute. reflexivity.
Defined.

(** X20: the [while True] loop of a finding ends within [len(text) + 2]
    rounds, whatever value is looked up and whatever spans are accepted
    already: with that many rounds or more it ends with the same result,
    no occurrence or an offset within the text. *)
Theorem search_loop_ends :
  forall (text value : str) (acc : list Span) (fuel : nat),
    (enough_fuel text <= fuel)%nat ->
    search fuel text value acc 0 = search (enough_fuel text) text value acc 0 /\
    (search fuel text value acc 0 = Ret NotFound \/
     exists pos, search fuel text value acc 0 = Ret (Accepted pos) /\
                 0 <= pos /\ pos + len value <= len text).
Proof.
  intros text value acc fuel Hfuel.
  pose proof (len_nonneg text) as Hl.
  assert (Hbig : len text + 2 <= Z.of_nat fuel + 0)
    by (unfold enough_fuel, len in *; lia).
  assert (Hsmall : len text + 2 <= Z.of_nat (enough_fuel text) + 0)
    by (unfold enough_fuel, len; lia).
  destruct (search_spec text value acc fuel 0 ltac:(lia) Hbig)
    as [[E1 Hall1] | (p1 & E1 & Hp1 & Ho1 & Hf1 & Hlt1)];
    destruct (search_spec text value acc (enough_fuel text) 0 ltac:(lia) Hsmall)
      as [[E2 Hall2] | (p2 & E2 & Hp2 & Ho2 & Hf2 & Hlt2)];
    rewrite E1, E2.
  - auto.
  - exfalso. rewrite (Hall1 p2 Hp2 Ho2) in Hf2. discriminate.
  - exfalso. rewrite (Hall2 p1 Hp1 Ho1) in Hf1. discriminate.
  - assert (p1 = p2).
    { destruct (Z.lt_trichotomy p1 p2) as [H | [H | H]]; [|exact H|].
      - rewrite (Hlt2 p1 ltac:(lia) Ho1) in Hf1. discriminate.
      - rewrite (Hlt1 p2 ltac:(lia) Ho2) in Hf2. discriminate. }
    subst p2. split; [reflexivity|]. right. exists p1.
    apply occurs_at_bounds in Ho1. auto.
Qed.

Lemma search_loop_ends_witness :
  search 40 (py "Ann met Ann") (py "Ann") [mkSpan 0 3 (py "Ann") PNone []] 0
  = search (enough_fuel (py "Ann met Ann")) (py "Ann met Ann") (py "Ann")
      [mkSpan 0 3 (py "Ann") PNone []] 0.
Proof.
  apply (search_loop_ends (py "Ann met Ann") (py "Ann") [mkSpan 0 3 (py "Ann") PNone []] 40).
  unfold enough_fuel. simpl. lia.
Defined.
